(** * Alexandria: session pool and routing-table manager

    A shallow embedding of [alexandria/pool.py],
    [alexandria/routing_table_manager.py] and the port cache of
    [alexandria/tools/factories.py].  Python objects with mutable
    state become explicit state passing in a small state-and-exception
    monad; the [Dict[NodeID, SessionAPI]] of the pool is a [gmap]. *)

From Stdlib Require Import ZArith NArith Lia Ascii.
From stdpp Require Import base option list gmap strings pretty.

Local Open Scope Z_scope.

(** * Values *)

(** [alexandria.typing.NodeID] is a [NewType] over [int]: a 256-bit
    unsigned number.  [uuid.UUID] is a 128-bit number.  Readings of
    [time.monotonic()] are clock ticks. *)
Abbreviation NodeID := N.
Abbreviation UUID := N.
Abbreviation Time := Z.

(** [abc.Endpoint]: a named tuple of an IPv4 address and a port. *)
Record Endpoint := mkEndpoint {
  ip_address : N;
  port : N
}.

(** [abc.Node], built as [Node(node_id, endpoint)]. *)
Record Node := mkNode {
  node_id : NodeID;
  endpoint : Endpoint
}.

(** * The state-and-exception monad

    A method of an object with state [S] that returns an [A] or raises
    an [E].  The state that comes back with a raised exception is the
    state at the [raise]. *)

Definition Eff (S E A : Type) : Type := S -> S * (E + A).

#[global] Instance Eff_ret {S E} : MRet (Eff S E) :=
  fun A (a : A) s => (s, inr a).

#[global] Instance Eff_bind {S E} : MBind (Eff S E) :=
  fun A B (k : A -> Eff S E B) (m : Eff S E A) s =>
    match m s with
    | (s', inl e) => (s', inl e)
    | (s', inr a) => k a s'
    end.

Definition raise {S E A} (e : E) : Eff S E A := fun s => (s, inl e).
Definition gets {S E A} (f : S -> A) : Eff S E A := fun s => (s, inr (f s)).
Definition modify {S E} (f : S -> S) : Eff S E unit := fun s => (f s, inr tt).

(** [for x in xs: body(x)] *)
Fixpoint for_each {S E A} (xs : list A) (body : A -> Eff S E unit) : Eff S E unit :=
  match xs with
  | [] => mret tt
  | x :: rest => body x;; for_each rest body
  end.

(** * Sessions *)

Inductive SessionRole := Initiator | Recipient.

(** Modelled from the spec: the session classes of [alexandria/session.py],
    which is not among the sources.  A session carries the remote node
    descriptor it was built for, an internal UUID and the time stamp of
    its last activity; [SessionInitiator] and [SessionRecipient] are its
    two roles.  Only the attributes that the pool reads are kept. *)
Record Session := mkSession {
  role : SessionRole;
  remote_node : Node;
  session_id : UUID;
  last_message_at : Time
}.

(** [SessionAPI.remote_node_id]: the peer's node id. *)
Definition remote_node_id (session : Session) : NodeID :=
  node_id (remote_node session).

(** The two constructors.  The UUID that the new session draws and the
    clock reading at its construction come from the environment. *)
Definition SessionInitiator (remote_node : Node) (fresh_id : UUID) (now : Time) : Session :=
  mkSession Initiator remote_node fresh_id now.

Definition SessionRecipient (remote_node : Node) (fresh_id : UUID) (now : Time) : Session :=
  mkSession Recipient remote_node fresh_id now.

(** * The pool *)

Module Pool.

Inductive Error :=
  | SessionNotFound (remote_node_id : NodeID)
  | DuplicateSession (remote_node_id : NodeID)
  | KeyError (key : NodeID).

(** [Pool]: the private key and the session dictionary. *)
Record t := mk {
  _private_key : N;
  _sessions : gmap NodeID Session
}.

Definition M := Eff t Error.

(** [Pool.__init__] *)
Definition init (private_key : N) : t := mk private_key ∅.

Definition set_sessions (f : gmap NodeID Session -> gmap NodeID Session) (self : t) : t :=
  mk (_private_key self) (f (_sessions self)).

(** ** Dictionary primitives *)

(** [self._sessions.values()] *)
Definition values : M (list Session) :=
  gets (fun self => (map_to_list (_sessions self)).*2).

(** [key in self._sessions] *)
Definition contains (key : NodeID) : M bool :=
  gets (fun self => bool_decide (is_Some (_sessions self !! key))).

(** [self._sessions[key]]: raises [KeyError] on a missing key. *)
Definition getitem (key : NodeID) : M Session :=
  fun self =>
    match _sessions self !! key with
    | Some session => (self, inr session)
    | None => (self, inl (KeyError key))
    end.

(** [self._sessions[key] = session] *)
Definition setitem (key : NodeID) (session : Session) : M unit :=
  modify (set_sessions (insert key session)).

(** [self._sessions.pop(key)]: raises [KeyError] on a missing key. *)
Definition pop (key : NodeID) : M Session :=
  fun self =>
    match _sessions self !! key with
    | Some session => (set_sessions (delete key) self, inr session)
    | None => (self, inl (KeyError key))
    end.

(** ** Methods *)

Section Methods.

(** [alexandria.constants.SESSION_IDLE_TIMEOUT], a constant of a module
    that is not among the sources. *)
Variable SESSION_IDLE_TIMEOUT : Time.

(** [now] is the reading of [time.monotonic()]. *)
Definition get_idle_sesssions (now : Time) : M (list Session) :=
  let timed_out_at := now - SESSION_IDLE_TIMEOUT in
  sessions ← values;
  mret (filter (fun session => last_message_at session <= timed_out_at) sessions).

End Methods.

(** The set comprehension holds one element for each stored session
    object whose UUID matches.  A set is iterated in an unspecified
    order; [remove_session] takes the order of the dictionary, and
    [pop_each_permutation] shows that no other order changes the
    outcome. *)
Definition remove_session (session_id' : UUID) : M bool :=
  sessions ← values;
  let to_remove := filter (fun session => session_id session = session_id') sessions in
  for_each to_remove (fun session => pop (remote_node_id session);; mret tt);;
  mret (bool_decide (to_remove <> [])).

(** The body of the loop of [remove_session]. *)
Definition pop_body (session : Session) : M unit :=
  pop (remote_node_id session);; mret tt.

Definition has_session (remote_node_id : NodeID) : M bool :=
  contains remote_node_id.

Definition get_session (remote_node_id : NodeID) : M Session :=
  present ← contains remote_node_id;
  if negb present then raise (SessionNotFound remote_node_id)
  else getitem remote_node_id.

(** [fresh_id] and [now] are what the constructor of the new session
    draws from [uuid] and the clock. *)
Definition create_session (remote_node : Node) (is_initiator : bool)
    (fresh_id : UUID) (now : Time) : M Session :=
  present ← contains (node_id remote_node);
  if (present : bool) then raise (DuplicateSession (node_id remote_node))
  else
    let session :=
      if is_initiator then SessionInitiator remote_node fresh_id now
      else SessionRecipient remote_node fresh_id now in
    setitem (node_id remote_node) session;;
    mret session.

(** ** Sequences of calls

    A client of the pool issues calls one after the other; a call that
    raises leaves the pool as it was at the [raise]. *)

Inductive Call :=
  | CreateSession (remote_node : Node) (is_initiator : bool) (fresh_id : UUID) (now : Time)
  | RemoveSession (session_id : UUID)
  | GetSession (remote_node_id : NodeID)
  | HasSession (remote_node_id : NodeID)
  | GetIdleSessions (now : Time).

Definition call (SESSION_IDLE_TIMEOUT : Time) (c : Call) (self : t) : t :=
  match c with
  | CreateSession remote_node is_initiator fresh_id now =>
      (create_session remote_node is_initiator fresh_id now self).1
  | RemoveSession session_id => (remove_session session_id self).1
  | GetSession remote_node_id => (get_session remote_node_id self).1
  | HasSession remote_node_id => (has_session remote_node_id self).1
  | GetIdleSessions now => (get_idle_sesssions SESSION_IDLE_TIMEOUT now self).1
  end.

Definition calls (SESSION_IDLE_TIMEOUT : Time) (cs : list Call) (self : t) : t :=
  foldl (fun self c => call SESSION_IDLE_TIMEOUT c self) self cs.

(** Every stored session sits under its own remote node id. *)
Definition keyed (self : t) : Prop :=
  forall k session, _sessions self !! k = Some session -> remote_node_id session = k.

(** [session] is one of the values of the dictionary. *)
Definition stored (self : t) (session : Session) : Prop :=
  exists k, _sessions self !! k = Some session.

(** The number of stored sessions whose peer is [remote_node_id]. *)
Definition sessions_with (id : NodeID) (self : t) : nat :=
  length (filter (fun session => remote_node_id session = id)
            (map_to_list (_sessions self)).*2).

(** ** Sample data *)

Definition node5 : Node := mkNode 5 (mkEndpoint 2130706433 30303).
Definition node9 : Node := mkNode 9 (mkEndpoint 2130706433 30304).
Definition session5 : Session := SessionInitiator node5 77 100.
Definition session9 : Session := SessionRecipient node9 78 130.
Definition pool5 : t := set_sessions (insert 5%N session5) (init 1).
Definition pool59 : t := set_sessions (insert 9%N session9) pool5.

End Pool.

(** * The routing table *)

(** The operations of [RoutingTableAPI] that the manager calls.  Log
    distances are [int]s. *)
Class RoutingTableAPI (RT : Type) := {
  is_empty : RT -> bool;
  get_least_recently_updated_log_distance : RT -> Z;
  get_nodes_at_log_distance : RT -> Z -> list NodeID;
  remove : NodeID -> RT -> RT
}.

(** Modelled from the spec: the k-bucket routing table of
    [alexandria/routing_table.py], which is not among the sources.
    There is one bucket per log distance in [1, 256]; a bucket is a
    sequence of node ids ordered most-recently-seen last, with a
    replacement cache.  To tell which bucket holds the entry that was
    seen longest ago, every entry carries the time at which it was last
    seen. *)
Module KademliaRoutingTable.

Record Entry := mkEntry {
  entry_id : NodeID;
  seen_at : Time
}.

Record Bucket := mkBucket {
  entries : list Entry;
  replacement_cache : list Entry
}.

Record t := mk {
  local_node_id : NodeID;
  buckets : list Bucket
}.

(** [floor(log2(a XOR b)) + 1] *)
Definition log_distance (a b : NodeID) : Z :=
  Z.of_N (N.log2 (N.lxor a b)) + 1.

(** The bucket of log distance [d] is [buckets[d - 1]]. *)
Definition bucket_at (self : t) (d : Z) : option Bucket :=
  if decide (1 <= d) then buckets self !! Z.to_nat (d - 1) else None.

Definition is_empty (self : t) : bool :=
  forallb (fun b => bool_decide (entries b = [])) (buckets self).

(** Bucket contents, tail first (most recent first). *)
Definition get_nodes_at_log_distance (self : t) (d : Z) : list NodeID :=
  match bucket_at self d with
  | Some b => reverse (entry_id <$> entries b)
  | None => []
  end.

(** The oldest entry of each bucket that has one, with the log distance
    of the bucket. *)
Fixpoint oldest_entries (d : Z) (bs : list Bucket) : list (Z * Time) :=
  match bs with
  | [] => []
  | b :: rest =>
      match entries b with
      | [] => oldest_entries (d + 1) rest
      | e :: _ => (d, seen_at e) :: oldest_entries (d + 1) rest
      end
  end.

(** The bucket whose least-recently-seen entry is oldest; empty buckets
    are skipped. *)
Definition get_least_recently_updated_log_distance (self : t) : Z :=
  match oldest_entries 1 (buckets self) with
  | [] => 0
  | first :: rest =>
      (foldl (fun best c => if decide (c.2 < best.2) then c else best) first rest).1
  end.

(** Remove from the bucket; if the replacement cache has a candidate,
    promote its most recent entry to the tail of the bucket. *)
Definition remove_from_bucket (id : NodeID) (b : Bucket) : Bucket :=
  let kept := filter (fun e => entry_id e <> id) (entries b) in
  if bool_decide (id ∈ entry_id <$> entries b) then
    match reverse (replacement_cache b) with
    | [] => mkBucket kept []
    | candidate :: older => mkBucket (kept ++ [candidate]) (reverse older)
    end
  else b.

(** Removing a run of node ids from one bucket. *)
Definition remove_run (ids : list NodeID) (b : Bucket) : Bucket :=
  foldl (fun b id => remove_from_bucket id b) b ids.

Definition remove (id : NodeID) (self : t) : t :=
  let d := log_distance (local_node_id self) id in
  mk (local_node_id self)
     (alter (remove_from_bucket id) (Z.to_nat (d - 1)) (buckets self)).

(** The bucket at log distance [d] holds nodes at that distance only,
    and none of its members waits in its replacement cache. *)
Definition bucket_sound (self : t) (d : Z) : Prop :=
  forall b, bucket_at self d = Some b ->
    forall e, e ∈ entries b ->
      log_distance (local_node_id self) (entry_id e) = d
      /\ entry_id e ∉ entry_id <$> replacement_cache b.

#[global] Instance api : RoutingTableAPI t :=
  Build_RoutingTableAPI t is_empty get_least_recently_updated_log_distance
    get_nodes_at_log_distance remove.

(** ** Sample data *)

Definition no_bucket : Bucket := mkBucket [] [].

(** A table around node 0 with two members at log distance 2, three
    members and a replacement candidate at log distance 3. *)
Definition sample : t :=
  mk 0 ([ no_bucket;
          mkBucket [mkEntry 2 15; mkEntry 3 25] [];
          mkBucket [mkEntry 4 10; mkEntry 6 20; mkEntry 5 30] [mkEntry 7 40] ]
        ++ replicate 253 no_bucket).

Definition vacant : t := mk 0 (replicate 256 no_bucket).

End KademliaRoutingTable.

(** * The routing-table manager *)

(** Modelled from the spec: the payloads [Ping {request_id, enr_seq}] and
    [FindNodes {request_id, distance}] of [alexandria/payloads.py], which
    is not among the sources. *)
Module Ping.
Record t := mk { request_id : N; enr_seq : N }.
End Ping.

Module FindNodes.
Record t := mk { request_id : N; distance : Z }.
End FindNodes.

(** An inbound message, as a subscription delivers it: the sender and
    the payload. *)
Record Message (P : Type) := mkMessage {
  node : Node;
  payload : P
}.
Arguments mkMessage {P} node payload.
Arguments node {P} m.
Arguments payload {P} m.

Module RoutingTableManager.

Inductive LogLevel := DEBUG | INFO | WARNING.

(** What the manager does to its collaborators: the logger, the client,
    the network and the nursery.  [ClientPing node timeout] is
    [client.ping(node)] inside [trio.move_on_after(timeout)]. *)
Inductive Event :=
  | Log (level : LogLevel) (format : string)
  | ClientPing (node : Node) (timeout : Time)
  | ClientSendPong (node : Node) (request_id : N)
  | ClientSendFoundNodes (node : Node) (request_id : N) (found_nodes : list Node)
  | NetworkIterativeLookup (target : NodeID)
  | StartSoonVerifyNode (node : Node).

Definition is_log (e : Event) : bool :=
  match e with Log _ _ => true | _ => false end.

(** The events of a trace other than log lines. *)
Definition actions (trace : list Event) : list Event :=
  filter (fun e => is_log e = false) trace.

Section Manager.

Context {RT : Type} `{RoutingTableAPI RT}.

(** The state that the daemons share: the routing table, and the events
    so far, oldest first. *)
Record World := mkWorld {
  routing_table : RT;
  trace : list Event
}.

Definition Task := Eff World Empty_set.

Definition emit (e : Event) : Task unit :=
  modify (fun w => mkWorld (routing_table w) (trace w ++ [e])).

Definition logger (level : LogLevel) (format : string) : Task unit :=
  emit (Log level format).

(** [alexandria.constants.PING_TIMEOUT], a constant of a module that is
    not among the sources. *)
Variable PING_TIMEOUT : Time.

(** [self.endpoint_db.get_endpoint] and [self.client.local_node]. *)
Variable get_endpoint : NodeID -> Endpoint.
Variable local_node : Node.

(** The environment: whether the pong of a node arrives before the
    timeout scope of its ping expires, and what an iterative lookup
    finds. *)
Variable pongs_in_time : Node -> bool.
Variable iterative_lookup : NodeID -> list Node.

(** [with trio.move_on_after(PING_TIMEOUT) as scope: await self.client.ping(node)];
    the result is [scope.cancelled_caught]. *)
Definition ping_cancelled_caught (node : Node) : Task bool :=
  emit (ClientPing node PING_TIMEOUT);;
  mret (negb (pongs_in_time node)).

Definition send_pong (node : Node) (request_id : N) : Task unit :=
  emit (ClientSendPong node request_id).

Definition send_found_nodes (node : Node) (request_id : N)
    (found_nodes : list Node) : Task unit :=
  emit (ClientSendFoundNodes node request_id found_nodes).

Definition _get_nodes_at_distance (distance : Z) : Task (list Node) :=
  nodes_at_distance ←
    gets (fun w => get_nodes_at_log_distance (routing_table w) distance);
  mret ((fun node_id => mkNode node_id (get_endpoint node_id)) <$> nodes_at_distance).

(** One turn of the loop of [_handle_lookup_requests], for the request
    that [subscription.receive()] delivered. *)
Definition handle_lookup_request (request : Message FindNodes.t) : Task unit :=
  logger DEBUG "handling request: %s";;
  found_nodes ←
    (if FindNodes.distance (payload request) =? 0
     then mret [local_node]
     else _get_nodes_at_distance (FindNodes.distance (payload request)));
  logger DEBUG "found %d nodes for request: %s";;
  send_found_nodes (node request)
    (FindNodes.request_id (payload request)) found_nodes.


(** The loop [for node_id in reversed(candidates)] of
    [_ping_occasionally], with its [break]. *)
Fixpoint ping_candidates (oldest_first : list NodeID) : Task unit :=
  match oldest_first with
  | [] => mret tt
  | node_id :: rest =>
      let endpoint := get_endpoint node_id in
      let node := mkNode node_id endpoint in
      cancelled_caught ← ping_cancelled_caught node;
      if (cancelled_caught : bool) then
        logger DEBUG "Node %s did not respond to ping.  Removing from routing table";;
        modify (fun w => mkWorld (remove node_id (routing_table w)) (trace w));;
        ping_candidates rest
      else mret tt
  end.

(** One cycle of [_ping_occasionally]. *)
Definition ping_cycle : Task unit :=
  empty ← gets (fun w => is_empty (routing_table w));
  if (empty : bool) then
    logger WARNING "Routing table is empty, no one to ping"
  else
    log_distance ←
      gets (fun w => get_least_recently_updated_log_distance (routing_table w));
    candidates ←
      gets (fun w => get_nodes_at_log_distance (routing_table w) log_distance);
    ping_candidates (reverse candidates).

(** One cycle of [_lookup_occasionally]; [target_node_id] is the draw of
    [secrets.randbits(256)]. *)
Definition lookup_cycle (target_node_id : NodeID) : Task unit :=
  empty ← gets (fun w => is_empty (routing_table w));
  if (empty : bool) then
    logger DEBUG "Aborting scheduled lookup due to empty routing table"
  else
    found_nodes ←
      (emit (NetworkIterativeLookup target_node_id);;
       mret (iterative_lookup target_node_id));
    logger DEBUG "Lookup for %s yielded %d nodes";;
    for_each found_nodes (fun node => emit (StartSoonVerifyNode node)).

(** One turn of the loop of [_pong_when_pinged]. *)
Definition pong (request : Message Ping.t) : Task unit :=
  logger DEBUG "Got ping from %s, responding with pong";;
  send_pong (node request) (Ping.request_id (payload request)).

(** [_pong_when_pinged], for the pings received while the service runs. *)
Definition _pong_when_pinged (inbox : list (Message Ping.t)) : Task unit :=
  for_each inbox pong.

(** ** The words of the specification *)

Definition node_of (node_id : NodeID) : Node :=
  mkNode node_id (get_endpoint node_id).

(** The members, oldest first, that stay silent before the first one
    that pongs. *)
Fixpoint silent_prefix (oldest_first : list NodeID) : list NodeID :=
  match oldest_first with
  | [] => []
  | node_id :: rest =>
      if pongs_in_time (node_of node_id) then []
      else node_id :: silent_prefix rest
  end.

End Manager.

Arguments World RT : clear implicits.

(** ** Sample data *)

Definition sample_endpoint (node_id : NodeID) : Endpoint :=
  mkEndpoint 2130706433 (30000 + node_id).

(** Only node 5 answers pings. *)
Definition only_5_pongs (node : Node) : bool := (node_id node =? 5)%N.

Definition sample_world : World KademliaRoutingTable.t :=
  mkWorld KademliaRoutingTable.sample [].

Definition vacant_world : World KademliaRoutingTable.t :=
  mkWorld KademliaRoutingTable.vacant [].

Definition sample_local_node : Node := mkNode 0 (sample_endpoint 0).

Definition sample_find_0 : Message FindNodes.t :=
  mkMessage (mkNode 6 (sample_endpoint 6)) (FindNodes.mk 4242 0).

Definition sample_find_2 : Message FindNodes.t :=
  mkMessage (mkNode 6 (sample_endpoint 6)) (FindNodes.mk 4243 2).

End RoutingTableManager.

(** * The replies of the FIND_NODES responder *)

Module Responder.
Import RoutingTableManager.

Section Replies.

Context {RT : Type} `{RoutingTableAPI RT}.
Variable get_endpoint : NodeID -> Endpoint.
Variable local_node : Node.



End Replies.

End Responder.

(** * The status report of the routing-table manager *)

Module StatusReport.

(** What [routing_table.get_stats()] returns, by the attributes that
    [_periodic_report_routing_table_status] reads; [full_buckets] is the
    tuple of the indexes of the full buckets. *)
Record RoutingTableStats := mkStats {
  bucket_size : Z;
  num_buckets : Z;
  total_nodes : Z;
  full_buckets : list Z;
  num_in_replacement_cache : Z
}.

(** The arguments that fill the five places of the log format. *)
Record ReportArgs := mkArgs {
  arg_bucket_size : Z;
  arg_num_buckets : Z;
  arg_total_nodes : Z;
  arg_full_buckets : string;
  arg_num_in_replacement_cache : Z
}.

(** [str(index)] is the decimal numeral of [stdpp]'s [pretty];
    ['/'.join] is [String.concat]. *)
Definition report (stats : RoutingTableStats) : ReportArgs :=
  let full_buckets :=
    match full_buckets stats with
    | [] => "None"
    | _ :: _ => String.concat "/" (pretty <$> full_buckets stats)
    end in
  mkArgs (bucket_size stats) (num_buckets stats) (total_nodes stats)
    full_buckets (num_in_replacement_cache stats).

(** The characters of decimal numerals. *)
Definition numeral_char (c : ascii) : bool :=
  bool_decide (c ∈ ["0"; "1"; "2"; "3"; "4"; "5"; "6"; "7"; "8"; "9"; "-"]%char).

Fixpoint numeral_chars (s : string) : bool :=
  match s with
  | EmptyString => true
  | String c s' => numeral_char c && numeral_chars s'
  end.

(** A numeral: not empty, and made of numeral characters. *)
Definition numeral (s : string) : Prop :=
  s <> "" /\ numeral_chars s = true.

End StatusReport.

(** * The port cache of the test factories *)

(** [alexandria/tools/factories.py].  [_get_open_port] asks the operating
    system for a free port; the ports that it hands out, call after
    call, are the list [draws]. *)
Module Factories.

Definition PORT_CACHE_SIZE : nat := 256.

(** The loop [while True] of [get_open_port]: draw until the port is not
    in the cache.  The result is the port and the draws left; there is
    none when the draws run out while the loop is still turning. *)
Fixpoint draw_uncached (PORT_CACHE draws : list Z) : option (Z * list Z) :=
  match draws with
  | [] => None
  | port :: rest =>
      if bool_decide (port ∈ PORT_CACHE) then draw_uncached PORT_CACHE rest
      else Some (port, rest)
  end.

(** [while len(PORT_CACHE) > PORT_CACHE_SIZE: PORT_CACHE.popleft()], for
    at most [fuel] turns. *)
Fixpoint popleft_excess (fuel : nat) (PORT_CACHE : list Z) : list Z :=
  match fuel with
  | O => PORT_CACHE
  | S fuel' =>
      if decide (PORT_CACHE_SIZE < length PORT_CACHE)%nat
      then popleft_excess fuel' (tail PORT_CACHE)
      else PORT_CACHE
  end.

(** [get_open_port()]: the port returned, the cache and the draws
    afterwards. *)
Definition get_open_port (PORT_CACHE draws : list Z) : option (Z * list Z * list Z) :=
  match draw_uncached PORT_CACHE draws with
  | None => None
  | Some (port, rest) =>
      if bool_decide (port ∉ PORT_CACHE) then
        let appended := PORT_CACHE ++ [port] in
        Some (port, popleft_excess (length appended) appended, rest)
      else Some (port, PORT_CACHE, rest)
  end.

(** [k] calls of [get_open_port] in a row, as the endpoint factory makes
    them: the ports returned, in order, the cache and the draws
    afterwards. *)
Fixpoint get_open_ports (k : nat) (PORT_CACHE draws : list Z)
    : option (list Z * list Z * list Z) :=
  match k with
  | O => Some ([], PORT_CACHE, draws)
  | S k' =>
      match get_open_port PORT_CACHE draws with
      | None => None
      | Some (port, cache1, rest) =>
          match get_open_ports k' cache1 rest with
          | None => None
          | Some (ports, cache2, rest') => Some (port :: ports, cache2, rest')
          end
      end
  end.

End Factories.

(** * What a call to the pool raises *)

Module PoolOutcome.
Import Pool.

(** The exception that a run ended with, if it raised. *)
Definition raised {A} (r : t * (Error + A)) : option Error :=
  match r.2 with
  | inl e => Some e
  | inr _ => None
  end.

Definition call_raised (SESSION_IDLE_TIMEOUT : Time) (c : Call) (self : t) : option Error :=
  match c with
  | CreateSession remote_node is_initiator fresh_id now =>
      raised (create_session remote_node is_initiator fresh_id now self)
  | RemoveSession session_id => raised (remove_session session_id self)
  | GetSession remote_node_id => raised (get_session remote_node_id self)
  | HasSession remote_node_id => raised (has_session remote_node_id self)
  | GetIdleSessions now => raised (get_idle_sesssions SESSION_IDLE_TIMEOUT now self)
  end.

(** No two stored sessions carry the same UUID. *)
Definition distinct_ids (self : t) : Prop :=
  forall k1 k2 session1 session2,
    _sessions self !! k1 = Some session1 ->
    _sessions self !! k2 = Some session2 ->
    session_id session1 = session_id session2 -> k1 = k2.

(** A pool in which two sessions carry the UUID 77 and both sit under
    the key 5, the second one wrongly. *)
Definition misfiled : t :=
  mk 1 (<[5%N := session5]> (<[9%N := mkSession Recipient node5 77 130]> ∅)).

End PoolOutcome.

(** * Properties of the pool *)

Module PoolFacts.
Import Pool.

Ltac eff_unfold :=
  unfold has_session, get_session, create_session, get_idle_sesssions,
    values, contains, getitem, setitem, modify, gets, raise;
  unfold mbind, mret, Eff_bind, Eff_ret; cbn.

Lemma elem_of_values (self : t) (session : Session) :
  session ∈ (map_to_list (_sessions self)).*2 <-> stored self session.
Proof.
  rewrite list_elem_of_fmap. split.
  - intros [[k s] [-> Hin]]. exists k. by apply elem_of_map_to_list.
  - intros [k Hk]. exists (k, session). split; [done|].
    by apply elem_of_map_to_list.
Qed.

Lemma keyed_init (private_key : N) : keyed (init private_key).
Proof. intros k session. cbn. by rewrite lookup_empty. Qed.

Lemma keyed_insert (self : t) (session : Session) :
  keyed self ->
  keyed (set_sessions (insert (remote_node_id session) session) self).
Proof.
  intros Hk k s. cbn. rewrite lookup_insert. case_decide.
  - intros [= <-]. done.
  - apply Hk.
Qed.

Lemma keyed_delete (self : t) (key : NodeID) :
  keyed self -> keyed (set_sessions (delete key) self).
Proof.
  intros Hk k s. cbn. rewrite lookup_delete. case_decide; [done|apply Hk].
Qed.

(** ** The loop of [remove_session] *)

Lemma pop_each (l : list Session) : forall self : t,
  NoDup (remote_node_id <$> l) ->
  (forall s, s ∈ l -> _sessions self !! remote_node_id s = Some s) ->
  for_each l pop_body self
  = (set_sessions (filter (fun kv => kv.1 ∉ remote_node_id <$> l)) self, inr tt).
Proof.
  induction l as [|s l IH]; intros self Hnd Hst.
  - cbn. unfold mret, Eff_ret, set_sessions. do 2 f_equal.
    destruct self as [pk m]; cbn. f_equal. symmetry.
    apply map_filter_id. intros i x _. cbn. apply not_elem_of_nil.
  - rewrite fmap_cons in Hnd. apply NoDup_cons in Hnd as [Hs Hnd].
    cbn [for_each]. unfold mbind, Eff_bind, pop_body at 1, pop.
    unfold mbind, Eff_bind, mret, Eff_ret.
    rewrite (Hst s) by apply list_elem_of_here.
    rewrite IH; [|done|].
    + unfold set_sessions; cbn. do 2 f_equal.
      apply map_eq. intros i. apply option_eq. intros x.
      rewrite !map_lookup_filter_Some, lookup_delete_Some. cbn.
      rewrite not_elem_of_cons.
      split; [intros [[? ?] ?]|intros [? [? ?]]]; repeat split; try done; congruence.
    + intros s' Hs'. cbn. rewrite lookup_delete_ne.
      * apply Hst. by apply list_elem_of_further.
      * intros Heq. apply Hs. rewrite Heq. by apply list_elem_of_fmap_2.
Qed.

(** The order in which the set [to_remove] is walked does not matter. *)
Lemma pop_each_permutation (l l' : list Session) (self : t) :
  l ≡ₚ l' ->
  NoDup (remote_node_id <$> l) ->
  (forall s, s ∈ l -> _sessions self !! remote_node_id s = Some s) ->
  for_each l' pop_body self = for_each l pop_body self.
Proof.
  intros Hp Hnd Hst.
  rewrite !pop_each; try done.
  - unfold set_sessions. do 3 f_equal.
    apply map_filter_ext. intros i x _. cbn. by rewrite Hp.
  - by rewrite <- Hp.
  - intros s Hs. apply Hst. by rewrite Hp.
Qed.

Lemma keyed_values_keys (self : t) :
  keyed self ->
  remote_node_id <$> (map_to_list (_sessions self)).*2
  = (map_to_list (_sessions self)).*1.
Proof.
  intros Hk. rewrite <- list_fmap_compose.
  apply list_fmap_ext. intros i [k s] Hl. cbn.
  apply Hk. apply elem_of_map_to_list. by eapply list_elem_of_lookup_2.
Qed.

Lemma keyed_stored_lookup (self : t) (session : Session) :
  keyed self -> stored self session ->
  _sessions self !! remote_node_id session = Some session.
Proof. intros Hk [k Hs]. by rewrite (Hk _ _ Hs). Qed.

Lemma keyed_pop_each (l : list Session) : forall self : t,
  keyed self -> keyed (for_each l pop_body self).1.
Proof.
  induction l as [|s l IH]; intros self Hk; [done|].
  cbn [for_each]. unfold mbind, Eff_bind, pop_body at 1, pop.
  unfold mbind, Eff_bind, mret, Eff_ret.
  destruct (_sessions self !! remote_node_id s); [|done].
  apply IH. by apply keyed_delete.
Qed.

Lemma remove_session_unfold (u : UUID) (self : t) :
  remove_session u self
  = let to_remove :=
      filter (fun session => session_id session = u)
        (map_to_list (_sessions self)).*2 in
    match for_each to_remove pop_body self with
    | (self', inl e) => (self', inl e)
    | (self', inr _) => (self', inr (bool_decide (to_remove <> [])))
    end.
Proof. reflexivity. Qed.

Lemma keyed_call (T : Time) (c : Call) (self : t) :
  keyed self -> keyed (call T c self).
Proof.
  intros Hk. destruct c as [n b u now|u|k|k|now]; cbn [call].
  - unfold create_session, contains, gets, mbind, Eff_bind. cbn.
    case_bool_decide; [done|]. cbn.
    assert (Hs : forall session, remote_node session = n ->
      keyed (set_sessions (insert (node_id n) session) self)).
    { intros session <-. by apply keyed_insert. }
    destruct b; by apply Hs.
  - rewrite remove_session_unfold. cbv zeta.
    set (l := filter _ _).
    pose proof (keyed_pop_each l self Hk) as Hl.
    by destruct (for_each l pop_body self) as [self' [e|[]]].
  - unfold get_session, contains, gets, mbind, Eff_bind. cbn.
    case_bool_decide; cbn; [|done]. unfold getitem.
    by destruct (_sessions self !! k).
  - done.
  - done.
Qed.

Lemma keyed_calls (T : Time) (cs : list Call) : forall self : t,
  keyed self -> keyed (calls T cs self).
Proof.
  induction cs as [|c cs IH]; intros self Hk; [done|].
  cbn. apply IH. by apply keyed_call.
Qed.

Lemma filter_key_length {A} (f : A -> NodeID) (id : NodeID) (l : list A) :
  NoDup (f <$> l) -> (length (filter (fun x => f x = id) l) <= 1)%nat.
Proof.
  induction l as [|x l IH]; intros Hnd; [cbn; lia|].
  rewrite fmap_cons in Hnd. apply NoDup_cons in Hnd as [Hx Hnd].
  rewrite filter_cons. case_decide as Hid; [|by apply IH].
  cbn. assert (Hnil : filter (fun y => f y = id) l = []).
  { destruct (filter (fun y => f y = id) l) as [|y l'] eqn:Hf; [done|].
    assert (Hy : y ∈ filter (fun y => f y = id) l) by (rewrite Hf; left).
    apply list_elem_of_filter in Hy as [Hy1 Hy2].
    destruct Hx. rewrite Hid, <- Hy1. by apply list_elem_of_fmap_2. }
  rewrite Hnil. cbn. lia.
Qed.

Lemma keyed_pool5 : keyed pool5.
Proof. apply (keyed_insert (init 1) session5), keyed_init. Defined.

Lemma keyed_pool59 : keyed pool59.
Proof. apply (keyed_insert pool5 session9), keyed_pool5. Defined.

(** ** [create_session] *)

(** C1.  If the pool holds a session for [n.node_id], [create_session]
    raises [DuplicateSession] and leaves the pool as it was.  If it holds
    none, the call returns a new session built for [n] and registers it
    under [n.node_id]: it is the entry of that key, every other key keeps
    its entry and the dictionary has grown by one. *)
Theorem create_session_spec (self : t) (n : Node) (is_initiator : bool)
    (fresh_id : UUID) (now : Time) :
  (is_Some (_sessions self !! node_id n) ->
   create_session n is_initiator fresh_id now self
   = (self, inl (DuplicateSession (node_id n))))
  /\
  (_sessions self !! node_id n = None ->
   exists (self' : t) (session : Session),
     create_session n is_initiator fresh_id now self = (self', inr session)
     /\ remote_node session = n
     /\ _sessions self' !! node_id n = Some session
     /\ (forall k, k <> node_id n -> _sessions self' !! k = _sessions self !! k)
     /\ size (_sessions self') = S (size (_sessions self))
     /\ _private_key self' = _private_key self).
Proof.
  split.
  - intros Hsome. eff_unfold. rewrite bool_decide_eq_true_2 by done.
    reflexivity.
  - intros Hnone. eff_unfold.
    rewrite bool_decide_eq_false_2 by (rewrite Hnone; by intros [? ?]).
    eexists _, _. split; [reflexivity|]. cbn.
    split; [by destruct is_initiator|].
    split; [by rewrite lookup_insert_eq|].
    split; [intros k Hk; by rewrite lookup_insert_ne|].
    split; [by apply map_size_insert_None|done].
Qed.

Lemma create_session_spec_witness :
  create_session node5 false 78 101 pool5 = (pool5, inl (DuplicateSession 5%N))
  /\ exists (self' : t) (session : Session),
       create_session node9 false 78 130 pool5 = (self', inr session)
       /\ remote_node session = node9
       /\ _sessions self' !! 9%N = Some session
       /\ (forall k, k <> 9%N -> _sessions self' !! k = _sessions pool5 !! k)
       /\ size (_sessions self') = S (size (_sessions pool5))
       /\ _private_key self' = _private_key pool5.
Proof.
  split.
  - apply (proj1 (create_session_spec pool5 node5 false 78 101)).
    exists session5. reflexivity.
  - apply (proj2 (create_session_spec pool5 node9 false 78 130)).
    reflexivity.
Defined.

(** ** [get_session] *)

(** C2.  [get_session] returns the session stored for the node id when
    there is one and raises [SessionNotFound] when there is none; the
    pool is the same afterwards in both cases. *)
Theorem get_session_spec (self : t) (id : NodeID) :
  (forall session, _sessions self !! id = Some session ->
     get_session id self = (self, inr session))
  /\ (_sessions self !! id = None ->
      get_session id self = (self, inl (SessionNotFound id))).
Proof.
  split.
  - intros session Hs. eff_unfold.
    rewrite bool_decide_eq_true_2 by (by rewrite Hs). cbn. by rewrite Hs.
  - intros Hnone. eff_unfold.
    rewrite bool_decide_eq_false_2 by (rewrite Hnone; by intros [? ?]).
    reflexivity.
Qed.

Lemma get_session_spec_witness :
  get_session 5%N pool59 = (pool59, inr session5)
  /\ get_session 7%N pool59 = (pool59, inl (SessionNotFound 7%N)).
Proof.
  split.
  - apply (proj1 (get_session_spec pool59 5%N)). reflexivity.
  - apply (proj2 (get_session_spec pool59 7%N)). reflexivity.
Defined.

(** ** Registration round trip *)

(** C9.  After a successful [create_session] for a node without a
    session, [has_session] answers true for the node id, [get_session]
    returns the session that [create_session] returned, and that session
    is an initiator exactly when [is_initiator] was true. *)
Theorem create_then_get (self : t) (n : Node) (is_initiator : bool)
    (fresh_id : UUID) (now : Time) :
  _sessions self !! node_id n = None ->
  exists (self' : t) (session : Session),
    create_session n is_initiator fresh_id now self = (self', inr session)
    /\ has_session (node_id n) self' = (self', inr true)
    /\ get_session (node_id n) self' = (self', inr session)
    /\ role session = (if is_initiator then Initiator else Recipient).
Proof.
  intros Hnone.
  exists (set_sessions (insert (node_id n)
            (if is_initiator then SessionInitiator n fresh_id now
             else SessionRecipient n fresh_id now)) self).
  eexists. split.
  - eff_unfold.
    rewrite bool_decide_eq_false_2 by (rewrite Hnone; by intros [? ?]).
    reflexivity.
  - eff_unfold. rewrite lookup_insert_eq.
    rewrite bool_decide_eq_true_2 by done. cbn.
    rewrite lookup_insert_eq.
    split; [done|]. split; [done|]. by destruct is_initiator.
Qed.

Lemma create_then_get_witness :
  exists (self' : t) (session : Session),
    create_session node9 true 78 130 pool5 = (self', inr session)
    /\ has_session 9%N self' = (self', inr true)
    /\ get_session 9%N self' = (self', inr session)
    /\ role session = Initiator.
Proof. apply (create_then_get pool5 node9 true 78 130). reflexivity. Defined.

(** ** [remove_session] *)

Lemma keyed_to_remove (self : t) (u : UUID) :
  keyed self ->
  let to_remove :=
    filter (fun session => session_id session = u)
      (map_to_list (_sessions self)).*2 in
  NoDup (remote_node_id <$> to_remove)
  /\ (forall s, s ∈ to_remove -> _sessions self !! remote_node_id s = Some s).
Proof.
  intros Hk to_remove. split.
  - apply (sublist_NoDup _ (remote_node_id <$> (map_to_list (_sessions self)).*2)).
    + rewrite keyed_values_keys by done. apply NoDup_fst_map_to_list.
    + apply fmap_sublist, sublist_filter.
  - intros s Hs. apply list_elem_of_filter in Hs as [_ Hs].
    apply keyed_stored_lookup; [done|]. by apply elem_of_values.
Qed.

(** C3.  In a pool whose sessions sit under their own remote node ids
    (every pool that calls can produce), [remove_session u] raises
    nothing and removes exactly the sessions whose [session_id] is [u]:
    the entries afterwards are the entries before whose UUID differs
    from [u].  It returns whether there was one to remove; when no
    stored session has UUID [u] the pool is unchanged and the result is
    false. *)
Theorem remove_session_spec (self : t) (u : UUID) :
  keyed self ->
  exists (self' : t) (removed : bool),
    remove_session u self = (self', inr removed)
    /\ (forall k session,
          _sessions self' !! k = Some session
          <-> _sessions self !! k = Some session /\ session_id session <> u)
    /\ _private_key self' = _private_key self
    /\ (removed = true
        <-> exists session, stored self session /\ session_id session = u)
    /\ ((forall session, stored self session -> session_id session <> u) ->
        self' = self /\ removed = false).
Proof.
  intros Hk. rewrite remove_session_unfold. cbv zeta.
  destruct (keyed_to_remove self u Hk) as [Hnd Hst].
  set (to_remove := filter _ _) in *.
  rewrite pop_each by done.
  eexists _, _. split; [reflexivity|].
  assert (Hmem : forall session,
    session ∈ to_remove <-> stored self session /\ session_id session = u).
  { intros session. unfold to_remove.
    rewrite list_elem_of_filter, elem_of_values. tauto. }
  assert (Hlook : forall k session,
    filter (fun kv => kv.1 ∉ remote_node_id <$> to_remove) (_sessions self) !! k
      = Some session
    <-> _sessions self !! k = Some session /\ session_id session <> u).
  { intros k session. rewrite map_lookup_filter_Some. cbn.
    split; intros [Hs Hn]; (split; [done|]).
    - intros Hu. apply Hn.
      rewrite <- (Hk _ _ Hs). apply list_elem_of_fmap_2, Hmem.
      split; [by exists k|done].
    - intros Hin. apply list_elem_of_fmap in Hin as [s [Hks Hin]].
      pose proof (Hst s Hin) as Hs'. rewrite <- Hks, Hs in Hs'.
      injection Hs' as <-. apply Hmem in Hin as [_ Hu]. done. }
  split; [exact Hlook|]. split; [done|]. split.
  - rewrite bool_decide_eq_true. split.
    + intros Hne. destruct to_remove as [|s l] eqn:Hl; [done|].
      exists s. apply Hmem. left.
    + intros [s Hs] Hnil. apply Hmem in Hs. rewrite Hnil in Hs.
      by apply not_elem_of_nil in Hs.
  - intros Hnone. split.
    + destruct self as [pk m]. unfold set_sessions. cbn in *. f_equal.
      apply map_eq. intros k. apply option_eq. intros session.
      rewrite Hlook. split; [tauto|]. intros Hs. split; [done|].
      apply Hnone. by exists k.
    + apply bool_decide_eq_false. intros Hne. apply Hne.
      destruct to_remove as [|s l] eqn:Hl; [done|].
      assert (Hs : s ∈ s :: l) by left.
      apply Hmem in Hs as [Hs Hu]. by destruct (Hnone s Hs).
Qed.

Lemma remove_session_spec_witness :
  exists (self' : t) (removed : bool),
    remove_session 77 pool59 = (self', inr removed)
    /\ (forall k session,
          _sessions self' !! k = Some session
          <-> _sessions pool59 !! k = Some session /\ session_id session <> 77%N)
    /\ _private_key self' = _private_key pool59
    /\ (removed = true
        <-> exists session, stored pool59 session /\ session_id session = 77%N)
    /\ ((forall session, stored pool59 session -> session_id session <> 77%N) ->
        self' = pool59 /\ removed = false).
Proof. apply (remove_session_spec pool59 77 keyed_pool59). Defined.

(** ** [get_idle_sesssions] *)

(** C4, as the code has it.  [get_idle_sesssions] returns exactly the
    stored sessions whose last-message time stamp is at or before
    [now - SESSION_IDLE_TIMEOUT], and leaves the pool as it was. *)
Theorem get_idle_sesssions_spec (SESSION_IDLE_TIMEOUT now : Time) (self : t) :
  exists idle : list Session,
    get_idle_sesssions SESSION_IDLE_TIMEOUT now self = (self, inr idle)
    /\ forall session,
         session ∈ idle
         <-> stored self session
             /\ last_message_at session <= now - SESSION_IDLE_TIMEOUT.
Proof.
  eexists. split; [reflexivity|]. intros session.
  rewrite list_elem_of_filter, elem_of_values. tauto.
Qed.

(** C4, as the claim words it (strictly earlier than the threshold),
    fails: a session whose last message is exactly
    [SESSION_IDLE_TIMEOUT] old is returned. *)
Lemma get_idle_sesssions_boundary :
  ~ (forall (SESSION_IDLE_TIMEOUT now : Time) (self : t) (idle : list Session),
       get_idle_sesssions SESSION_IDLE_TIMEOUT now self = (self, inr idle) ->
       forall session,
         session ∈ idle
         <-> stored self session
             /\ last_message_at session < now - SESSION_IDLE_TIMEOUT).
Proof.
  intros Hclaim.
  assert (Hrun : get_idle_sesssions 60 160 pool5 = (pool5, inr [session5]))
    by reflexivity.
  destruct (proj1 (Hclaim 60 160 pool5 [session5] Hrun session5)) as [_ Hlt].
  - left.
  - cbn in Hlt. lia.
Qed.

(** ** One session per remote node *)

(** C8.  After any sequence of [create_session], [remove_session],
    [get_session], [has_session] and [get_idle_sesssions] calls on a new
    pool, every stored session sits under the key of its own
    [remote_node_id], and no remote node id has more than one stored
    session. *)
Theorem one_session_per_node (SESSION_IDLE_TIMEOUT : Time) (private_key : N)
    (cs : list Call) :
  let self := calls SESSION_IDLE_TIMEOUT cs (init private_key) in
  keyed self /\ forall id : NodeID, (sessions_with id self <= 1)%nat.
Proof.
  intros self.
  assert (Hk : keyed self) by apply keyed_calls, keyed_init.
  split; [done|]. intros id. unfold sessions_with.
  apply filter_key_length.
  rewrite keyed_values_keys by done. apply NoDup_fst_map_to_list.
Qed.

End PoolFacts.

(** * Properties of the modelled routing table *)

Module KademliaFacts.
Import KademliaRoutingTable.

(** Reversing what [get_nodes_at_log_distance] returns walks the bucket
    from its oldest member to its newest. *)
Lemma get_nodes_oldest_first (rt : t) (d : Z) (b : Bucket) :
  bucket_at rt d = Some b ->
  reverse (get_nodes_at_log_distance rt d) = entry_id <$> entries b.
Proof.
  intros Hb. unfold get_nodes_at_log_distance. rewrite Hb.
  apply reverse_involutive.
Qed.

Lemma remove_from_bucket_cache (id x : NodeID) (b : Bucket) :
  x ∈ entry_id <$> replacement_cache (remove_from_bucket id b) ->
  x ∈ entry_id <$> replacement_cache b.
Proof.
  unfold remove_from_bucket. case_bool_decide; [|done].
  destruct (reverse (replacement_cache b)) as [|c older] eqn:Hrev; cbn.
  - intros Hx. by apply not_elem_of_nil in Hx.
  - intros Hx. apply (f_equal reverse) in Hrev.
    rewrite reverse_involutive, reverse_cons in Hrev. rewrite Hrev.
    rewrite fmap_app, elem_of_app. by left.
Qed.

Lemma remove_from_bucket_entries (id x : NodeID) (b : Bucket) :
  x ∈ entry_id <$> entries (remove_from_bucket id b) ->
  (x ∈ entry_id <$> entries b /\ x <> id)
  \/ x ∈ entry_id <$> replacement_cache b.
Proof.
  unfold remove_from_bucket. case_bool_decide as Hin.
  - assert (Hkept : forall l : list Entry,
      x ∈ entry_id <$> filter (fun e => entry_id e <> id) l ->
      x ∈ entry_id <$> l /\ x <> id).
    { intros l Hx. apply list_elem_of_fmap in Hx as [e [-> He]].
      apply list_elem_of_filter in He as [Hne He].
      split; [by apply list_elem_of_fmap_2|done]. }
    destruct (reverse (replacement_cache b)) as [|c older] eqn:Hrev; cbn.
    + intros Hx. left. by apply Hkept.
    + rewrite fmap_app, elem_of_app. intros [Hx|Hx].
      * left. by apply Hkept.
      * right. apply (f_equal reverse) in Hrev.
        rewrite reverse_involutive, reverse_cons in Hrev. rewrite Hrev.
        rewrite fmap_app, elem_of_app. by right.
  - intros Hx. left. split; [done|]. by intros ->.
Qed.

Lemma remove_run_absent (ids : list NodeID) : forall (b : Bucket) (x : NodeID),
  x ∉ entry_id <$> replacement_cache b ->
  x ∈ ids \/ x ∉ entry_id <$> entries b ->
  x ∉ entry_id <$> entries (remove_run ids b).
Proof.
  induction ids as [|id ids IH]; intros b x Hcache Hx; cbn.
  - destruct Hx as [Hx|Hx]; [by apply not_elem_of_nil in Hx|done].
  - apply IH.
    + intros Hc. by apply Hcache, (remove_from_bucket_cache id).
    + destruct (decide (x ∈ ids)) as [Hin|Hnin]; [by left|right].
      intros He. apply remove_from_bucket_entries in He as [[He Hne]|He]; [|done].
      destruct Hx as [Hx|Hx]; [|done].
      apply elem_of_cons in Hx as [Hx|Hx]; done.
Qed.

Lemma remove_run_table (d : Z) (ids : list NodeID) : forall rt : t,
  (forall id, id ∈ ids -> log_distance (local_node_id rt) id = d) ->
  foldl (fun rt id => remove id rt) rt ids
  = mk (local_node_id rt)
       (alter (remove_run ids) (Z.to_nat (d - 1)) (buckets rt)).
Proof.
  induction ids as [|id ids IH]; intros rt Hd; cbn [foldl].
  - destruct rt as [local bs]. cbn. f_equal. symmetry. by apply list_alter_id.
  - rewrite IH.
    + unfold remove. cbn [local_node_id buckets].
      rewrite (Hd id) by left. f_equal.
      by rewrite list_alter_alter_eq.
    + intros id' Hid'. cbn. apply Hd. by right.
Qed.

(** After a run of members of a sound bucket is removed from the table,
    none of them is among the nodes at that log distance. *)
Lemma remove_run_gone (rt : t) (d : Z) (ids : list NodeID) :
  bucket_sound rt d ->
  ids ⊆ reverse (get_nodes_at_log_distance rt d) ->
  forall id, id ∈ ids ->
    id ∉ get_nodes_at_log_distance (foldl (fun rt id => remove id rt) rt ids) d.
Proof.
  intros Hsound Hsub id Hid.
  destruct (bucket_at rt d) as [b|] eqn:Hb.
  - rewrite (get_nodes_oldest_first rt d b Hb) in Hsub.
    assert (Hmem : forall x, x ∈ ids ->
      log_distance (local_node_id rt) x = d
      /\ x ∉ entry_id <$> replacement_cache b).
    { intros x Hx. apply Hsub, list_elem_of_fmap in Hx as [e [-> He]].
      by apply (Hsound b Hb). }
    rewrite (remove_run_table d) by (intros x Hx; by apply Hmem).
    unfold get_nodes_at_log_distance, bucket_at in *. cbn [buckets].
    case_decide; [|done].
    rewrite list_lookup_alter_eq, Hb. cbn.
    rewrite elem_of_reverse. apply remove_run_absent; [by apply Hmem|by left].
  - unfold get_nodes_at_log_distance in Hsub. rewrite Hb in Hsub.
    apply Hsub in Hid. by apply not_elem_of_nil in Hid.
Qed.

Lemma bucket_sound_sample : bucket_sound sample 3.
Proof.
  intros b [= <-] e He. cbn in He.
  assert (Hid : entry_id e ∈ [4; 6; 5]%N).
  { repeat (apply elem_of_cons in He as [->|He]; [set_solver|]).
    by apply not_elem_of_nil in He. }
  cbn. rewrite list_elem_of_singleton.
  repeat (apply elem_of_cons in Hid as [->|Hid]; [done|]).
  by apply not_elem_of_nil in Hid.
Qed.

End KademliaFacts.

(** * Properties of the routing-table manager *)

Module ManagerFacts.
Import RoutingTableManager.

Example sample_least_recently_updated :
  get_least_recently_updated_log_distance KademliaRoutingTable.sample = 3.
Proof. reflexivity. Qed.

Example sample_ping_cycle :
  let w' := (ping_cycle 1 sample_endpoint only_5_pongs sample_world).1 in
  actions (trace w')
  = [ ClientPing (mkNode 4 (sample_endpoint 4)) 1;
      ClientPing (mkNode 6 (sample_endpoint 6)) 1;
      ClientPing (mkNode 5 (sample_endpoint 5)) 1 ]
  /\ get_nodes_at_log_distance (routing_table w') 3 = [7; 5]%N
  /\ get_nodes_at_log_distance (routing_table w') 2 = [3; 2]%N.
Proof. vm_compute. done. Qed.

Section Facts.

Context {RT : Type} `{RoutingTableAPI RT}.
Variable PING_TIMEOUT : Time.
Variable get_endpoint : NodeID -> Endpoint.
Variable local_node : Node.
Variable pongs_in_time : Node -> bool.
Variable iterative_lookup : NodeID -> list Node.

Local Abbreviation node_of := (node_of get_endpoint).
Local Abbreviation silent_prefix := (silent_prefix get_endpoint pongs_in_time).

Lemma actions_snoc_log (tr : list Event) (level : LogLevel) (format : string) :
  actions (tr ++ [Log level format]) = actions tr.
Proof. unfold actions. rewrite filter_app. cbn. apply app_nil_r. Qed.

Lemma actions_snoc (tr : list Event) (e : Event) :
  is_log e = false -> actions (tr ++ [e]) = actions tr ++ [e].
Proof.
  intros He. unfold actions. rewrite filter_app. f_equal.
  by rewrite filter_cons_True.
Qed.

(** ** The shape of the silent prefix *)

Lemma silent_prefix_split (l : list NodeID) :
  exists rest : list NodeID,
    l = silent_prefix l ++ rest
    /\ Forall (fun id => pongs_in_time (node_of id) = false) (silent_prefix l)
    /\ (forall id, head rest = Some id -> pongs_in_time (node_of id) = true)
    /\ take (S (length (silent_prefix l))) l
       = silent_prefix l ++ option_list (head rest).
Proof.
  induction l as [|id l (rest & Hl & Hs & Hh & Ht)]; cbn [RoutingTableManager.silent_prefix].
  - exists []. by repeat split.
  - destruct (pongs_in_time (node_of id)) eqn:Hp.
    + exists (id :: l). cbn. repeat split; [done|].
      intros id' [= <-]. done.
    + exists rest. cbn [app length]. split; [by rewrite <- Hl|].
      split; [by constructor|]. split; [done|].
      rewrite firstn_cons. by rewrite Ht.
Qed.

Lemma silent_prefix_all (l : list NodeID) :
  (forall id, id ∈ l -> pongs_in_time (node_of id) = false) ->
  silent_prefix l = l.
Proof.
  induction l as [|id l IH]; intros Hall; cbn; [done|].
  rewrite (Hall id) by left. f_equal. apply IH.
  intros id' Hid'. apply Hall. by right.
Qed.

(** ** The ping loop *)

Lemma ping_candidates_run (l : list NodeID) : forall w : World RT,
  exists w' : World RT,
    ping_candidates PING_TIMEOUT get_endpoint pongs_in_time l w = (w', inr tt)
    /\ routing_table w'
       = foldl (fun rt id => remove id rt) (routing_table w) (silent_prefix l)
    /\ actions (trace w')
       = actions (trace w)
         ++ ((fun id => ClientPing (node_of id) PING_TIMEOUT)
               <$> take (S (length (silent_prefix l))) l).
Proof.
  induction l as [|id l IH]; intros w.
  - exists w. cbn. by rewrite app_nil_r.
  - cbn [ping_candidates RoutingTableManager.silent_prefix].
    unfold ping_cancelled_caught, logger, emit, modify.
    unfold mbind, mret, Eff_bind, Eff_ret. cbn [routing_table trace].
    fold (node_of id).
    destruct (pongs_in_time (node_of id)) eqn:Hp; cbn [negb].
    + eexists. split; [reflexivity|]. cbn. split; [done|].
      by rewrite actions_snoc.
    + destruct (IH (mkWorld (remove id (routing_table w))
                     ((trace w ++ [ClientPing (node_of id) PING_TIMEOUT])
                      ++ [Log DEBUG "Node %s did not respond to ping.  Removing from routing table"])))
        as (w' & Hrun & Hrt & Hact).
      exists w'. split; [exact Hrun|]. split; [by rewrite Hrt|].
      rewrite Hact. cbn [routing_table trace length].
      rewrite firstn_cons, fmap_cons.
      rewrite actions_snoc_log, actions_snoc by done.
      by rewrite <- app_assoc.
Qed.

(** C5.  One cycle of the liveness-ping daemon on a non-empty table
    takes the bucket at the least-recently-updated log distance and
    walks its members from oldest to newest.  The members split into the
    ones that stay silent before the first pong and the rest: the cycle
    pings, with [PING_TIMEOUT], the silent ones and the first member of
    the rest, in that order and no one else, and removes exactly the
    silent ones from the routing table.  When no member pongs, all of
    them are removed. *)
Theorem ping_cycle_spec (w : World RT) :
  is_empty (routing_table w) = false ->
  let rt := routing_table w in
  let members :=
    reverse (get_nodes_at_log_distance rt
               (get_least_recently_updated_log_distance rt)) in
  exists (w' : World RT) (silent rest : list NodeID),
    ping_cycle PING_TIMEOUT get_endpoint pongs_in_time w = (w', inr tt)
    /\ members = silent ++ rest
    /\ Forall (fun id => pongs_in_time (node_of id) = false) silent
    /\ (forall id, head rest = Some id -> pongs_in_time (node_of id) = true)
    /\ actions (trace w')
       = actions (trace w)
         ++ ((fun id => ClientPing (node_of id) PING_TIMEOUT)
               <$> silent ++ option_list (head rest))
    /\ routing_table w' = foldl (fun rt id => remove id rt) rt silent
    /\ ((forall id, id ∈ members -> pongs_in_time (node_of id) = false) ->
        silent = members /\ rest = []).
Proof.
  intros Hne rt members.
  destruct (ping_candidates_run members w) as (w' & Hrun & Hrt & Hact).
  destruct (silent_prefix_split members) as (rest & Hl & Hs & Hh & Ht).
  exists w', (silent_prefix members), rest.
  split.
  { unfold ping_cycle, gets, mbind, Eff_bind. cbn. rewrite Hne. exact Hrun. }
  split; [exact Hl|]. split; [exact Hs|]. split; [exact Hh|].
  split; [by rewrite Hact, Ht|]. split; [exact Hrt|].
  intros Hall. pose proof (silent_prefix_all members Hall) as Heq.
  split; [done|]. rewrite Heq in Hl.
  apply (f_equal length) in Hl. rewrite length_app in Hl.
  destruct rest; [done|]. cbn in Hl. lia.
Qed.

(** ** The daemons on an empty table *)

(** C10.  In a cycle of the lookup daemon or of the ping daemon that
    finds the routing table empty, the daemon writes one log line and
    does nothing else: no iterative lookup, no node verification, no
    ping, and the routing table stays as it was. *)
Theorem cycles_on_empty_table (w : World RT) (target_node_id : NodeID) :
  is_empty (routing_table w) = true ->
  (exists w' : World RT,
     lookup_cycle iterative_lookup target_node_id w = (w', inr tt)
     /\ routing_table w' = routing_table w
     /\ trace w'
        = trace w ++ [Log DEBUG "Aborting scheduled lookup due to empty routing table"]
     /\ actions (trace w') = actions (trace w))
  /\
  (exists w' : World RT,
     ping_cycle PING_TIMEOUT get_endpoint pongs_in_time w = (w', inr tt)
     /\ routing_table w' = routing_table w
     /\ trace w' = trace w ++ [Log WARNING "Routing table is empty, no one to ping"]
     /\ actions (trace w') = actions (trace w)).
Proof.
  intros Hempty. split.
  - unfold lookup_cycle, gets, mbind, Eff_bind. cbn. rewrite Hempty.
    eexists. split; [reflexivity|]. cbn.
    split; [done|]. split; [done|]. apply actions_snoc_log.
  - unfold ping_cycle, gets, mbind, Eff_bind. cbn. rewrite Hempty.
    eexists. split; [reflexivity|]. cbn.
    split; [done|]. split; [done|]. apply actions_snoc_log.
Qed.

(** ** The FIND_NODES responder *)

(** C6.  For an inbound [FindNodes] request the responder sends one
    [FoundNodes] reply, to the node that asked and with the request id
    of the request, and does nothing else to the client or the table.
    The reply holds the local node alone when the distance is 0, and
    otherwise the nodes of the bucket at that log distance, each with
    its endpoint from the endpoint database. *)
Theorem handle_lookup_request_spec (request : Message FindNodes.t) (w : World RT) :
  exists (w' : World RT) (found_nodes : list Node),
    handle_lookup_request get_endpoint local_node request w = (w', inr tt)
    /\ routing_table w' = routing_table w
    /\ actions (trace w')
       = actions (trace w)
         ++ [ClientSendFoundNodes (node request)
               (FindNodes.request_id (payload request)) found_nodes]
    /\ (FindNodes.distance (payload request) = 0 -> found_nodes = [local_node])
    /\ (FindNodes.distance (payload request) <> 0 ->
        found_nodes
        = (fun id => mkNode id (get_endpoint id))
            <$> get_nodes_at_log_distance (routing_table w)
                  (FindNodes.distance (payload request))).
Proof.
  unfold handle_lookup_request, _get_nodes_at_distance, send_found_nodes,
    logger, emit, modify, gets.
  unfold mbind, mret, Eff_bind, Eff_ret. cbn [routing_table trace].
  destruct (Z.eqb_spec (FindNodes.distance (payload request)) 0) as [Hd|Hd].
  - eexists _, _. split; [reflexivity|]. cbn [routing_table trace].
    split; [done|]. split.
    { rewrite actions_snoc by done. rewrite !actions_snoc_log. reflexivity. }
    split; intros ?; congruence.
  - eexists _, _. split; [reflexivity|]. cbn [routing_table trace].
    split; [done|]. split.
    { rewrite actions_snoc by done. rewrite !actions_snoc_log. reflexivity. }
    split; intros ?; congruence.
Qed.

(** ** The ping responder *)

Lemma pong_run (request : Message Ping.t) (w : World RT) :
  pong request w
  = (mkWorld (routing_table w)
       ((trace w ++ [Log DEBUG "Got ping from %s, responding with pong"])
        ++ [ClientSendPong (node request) (Ping.request_id (payload request))]),
     inr tt).
Proof. reflexivity. Qed.

(** C7.  For the pings that the ping responder receives, it sends one
    pong per ping, in the order of arrival, each to the node that sent
    the ping and with the request id of that ping, and does nothing
    else to the client or the table. *)
Theorem pong_when_pinged_spec (inbox : list (Message Ping.t)) (w : World RT) :
  exists w' : World RT,
    _pong_when_pinged inbox w = (w', inr tt)
    /\ routing_table w' = routing_table w
    /\ actions (trace w')
       = actions (trace w)
         ++ ((fun request =>
                ClientSendPong (node request) (Ping.request_id (payload request)))
               <$> inbox).
Proof.
  revert w. induction inbox as [|request inbox IH]; intros w.
  - exists w. cbn. by rewrite app_nil_r.
  - unfold _pong_when_pinged. cbn [for_each].
    unfold mbind, Eff_bind. rewrite pong_run.
    destruct (IH (mkWorld (routing_table w)
                   ((trace w ++ [Log DEBUG "Got ping from %s, responding with pong"])
                    ++ [ClientSendPong (node request)
                          (Ping.request_id (payload request))])))
      as (w' & Hrun & Hrt & Hact).
    exists w'. split; [exact Hrun|]. split; [by rewrite Hrt|].
    rewrite Hact. cbn [trace]. rewrite actions_snoc, actions_snoc_log by done.
    rewrite fmap_cons. by rewrite <- app_assoc.
Qed.

End Facts.

(** ** The ping cycle on the modelled table *)

(** On the modelled k-bucket table, when the bucket that the cycle picks
    is sound, the members that stayed silent are no longer among the
    nodes at that log distance once the cycle is over. *)
Lemma kademlia_ping_cycle_evicts (PING_TIMEOUT : Time)
    (get_endpoint : NodeID -> Endpoint) (pongs_in_time : Node -> bool)
    (w : World KademliaRoutingTable.t) :
  let rt := routing_table w in
  let d := KademliaRoutingTable.get_least_recently_updated_log_distance rt in
  let members := reverse (KademliaRoutingTable.get_nodes_at_log_distance rt d) in
  KademliaRoutingTable.is_empty rt = false ->
  KademliaRoutingTable.bucket_sound rt d ->
  forall id,
    id ∈ silent_prefix get_endpoint pongs_in_time members ->
    id ∉ KademliaRoutingTable.get_nodes_at_log_distance
           (routing_table (ping_cycle PING_TIMEOUT get_endpoint pongs_in_time w).1) d.
Proof.
  intros rt d members Hne Hsound id Hid.
  destruct (ping_candidates_run PING_TIMEOUT get_endpoint pongs_in_time members w)
    as (w' & Hrun & Hrt & _).
  assert (Hcycle : ping_cycle PING_TIMEOUT get_endpoint pongs_in_time w = (w', inr tt)).
  { unfold ping_cycle, gets, mbind, Eff_bind. cbn. fold rt. rewrite Hne.
    exact Hrun. }
  rewrite Hcycle. cbn [fst]. rewrite Hrt.
  apply (KademliaFacts.remove_run_gone rt d); [done| |done].
  destruct (silent_prefix_split get_endpoint pongs_in_time members)
    as (rest & Hl & _).
  intros x Hx. fold members. rewrite Hl. apply elem_of_app. by left.
Qed.

Example sample_silent_evicted (id : NodeID) :
  id ∈ [4; 6]%N ->
  id ∉ KademliaRoutingTable.get_nodes_at_log_distance
         (routing_table (ping_cycle 1 sample_endpoint only_5_pongs sample_world).1) 3.
Proof.
  intros Hid.
  apply (kademlia_ping_cycle_evicts 1 sample_endpoint only_5_pongs sample_world).
  - reflexivity.
  - apply KademliaFacts.bucket_sound_sample.
  - exact Hid.
Qed.

(** ** The theorems at the sample table *)

Lemma ping_cycle_spec_witness :
  is_empty (routing_table sample_world) = false
  /\ exists (w' : World KademliaRoutingTable.t) (silent rest : list NodeID),
       ping_cycle 1 sample_endpoint only_5_pongs sample_world = (w', inr tt)
       /\ [4; 6; 5]%N = silent ++ rest
       /\ Forall (fun id => only_5_pongs (node_of sample_endpoint id) = false) silent
       /\ (forall id, head rest = Some id ->
           only_5_pongs (node_of sample_endpoint id) = true)
       /\ actions (trace w')
          = actions []
            ++ ((fun id => ClientPing (node_of sample_endpoint id) 1)
                  <$> silent ++ option_list (head rest))
       /\ routing_table w'
          = foldl (fun rt id => remove id rt) KademliaRoutingTable.sample silent
       /\ ((forall id, id ∈ [4; 6; 5]%N ->
            only_5_pongs (node_of sample_endpoint id) = false) ->
           silent = [4; 6; 5]%N /\ rest = []).
Proof.
  assert (Hne : is_empty (routing_table sample_world) = false) by reflexivity.
  split; [exact Hne|].
  exact (ping_cycle_spec 1 sample_endpoint only_5_pongs sample_world Hne).
Defined.

Lemma cycles_on_empty_table_witness :
  is_empty (routing_table vacant_world) = true
  /\ (exists w' : World KademliaRoutingTable.t,
        lookup_cycle (fun _ => [sample_local_node]) 11 vacant_world = (w', inr tt)
        /\ routing_table w' = routing_table vacant_world
        /\ trace w'
           = trace vacant_world
             ++ [Log DEBUG "Aborting scheduled lookup due to empty routing table"]
        /\ actions (trace w') = actions (trace vacant_world))
  /\ (exists w' : World KademliaRoutingTable.t,
        ping_cycle 1 sample_endpoint only_5_pongs vacant_world = (w', inr tt)
        /\ routing_table w' = routing_table vacant_world
        /\ trace w'
           = trace vacant_world
             ++ [Log WARNING "Routing table is empty, no one to ping"]
        /\ actions (trace w') = actions (trace vacant_world)).
Proof.
  split; [reflexivity|].
  apply (cycles_on_empty_table 1 sample_endpoint only_5_pongs
           (fun _ => [sample_local_node]) vacant_world 11).
  reflexivity.
Defined.

Lemma handle_lookup_request_spec_witness :
  (exists w' : World KademliaRoutingTable.t,
     handle_lookup_request sample_endpoint sample_local_node sample_find_0 sample_world
     = (w', inr tt)
     /\ actions (trace w')
        = [ClientSendFoundNodes (node sample_find_0) 4242 [sample_local_node]])
  /\ (exists w' : World KademliaRoutingTable.t,
        handle_lookup_request sample_endpoint sample_local_node sample_find_2 sample_world
        = (w', inr tt)
        /\ actions (trace w')
           = [ClientSendFoundNodes (node sample_find_2) 4243
                [mkNode 3 (sample_endpoint 3); mkNode 2 (sample_endpoint 2)]]).
Proof.
  split.
  - destruct (handle_lookup_request_spec sample_endpoint sample_local_node
                sample_find_0 sample_world)
      as (w' & found & Hrun & _ & Hact & H0 & _).
    exists w'. split; [exact Hrun|]. rewrite Hact, (H0 eq_refl). reflexivity.
  - destruct (handle_lookup_request_spec sample_endpoint sample_local_node
                sample_find_2 sample_world)
      as (w' & found & Hrun & _ & Hact & _ & Hn).
    exists w'. split; [exact Hrun|]. rewrite Hact, Hn; [reflexivity|].
    cbn. lia.
Defined.

End ManagerFacts.

(** * More about the pool *)

Module PoolMore.
Import Pool PoolOutcome PoolFacts.

Lemma keyed_filter (P : NodeID * Session -> Prop) `{!forall kv, Decision (P kv)}
    (self : t) :
  keyed self -> keyed (set_sessions (filter P) self).
Proof.
  intros Hk k session. cbn. rewrite map_lookup_filter_Some.
  intros [Hs _]. by apply Hk.
Qed.

(** What [remove_session] computes in a keyed pool. *)
Lemma remove_session_filter (self : t) (u : UUID) :
  keyed self ->
  remove_session u self
  = (set_sessions (filter (fun kv => session_id kv.2 <> u)) self,
     inr (bool_decide
            (filter (fun session => session_id session = u)
               (map_to_list (_sessions self)).*2 <> []))).
Proof.
  intros Hk. rewrite remove_session_unfold. cbv zeta.
  destruct (keyed_to_remove self u Hk) as [Hnd Hst].
  rewrite pop_each by done. f_equal. unfold set_sessions. f_equal.
  apply map_filter_ext. intros i x Hx. cbn. split.
  - intros Hn Hu. apply Hn. rewrite <- (Hk _ _ Hx).
    apply list_elem_of_fmap_2, list_elem_of_filter. split; [done|].
    apply elem_of_values. by exists i.
  - intros Hu Hin. apply list_elem_of_fmap in Hin as [s [Hks Hin]].
    pose proof (Hst s Hin) as Hs. rewrite <- Hks, Hx in Hs.
    injection Hs as <-. by apply list_elem_of_filter in Hin as [Hid _].
Qed.

Lemma to_remove_nil (self : t) (u : UUID) :
  filter (fun session => session_id session = u)
    (map_to_list (_sessions self)).*2 = []
  <-> forall session, stored self session -> session_id session <> u.
Proof.
  split.
  - intros Hnil session Hs Hu.
    eapply filter_nil_not_elem_of; [exact Hnil|exact Hu|].
    by apply elem_of_values.
  - intros Hnone.
    destruct (filter _ _) as [|s l] eqn:Hf; [done|].
    assert (Hs : s ∈ s :: l) by left. rewrite <- Hf in Hs.
    apply list_elem_of_filter in Hs as [Hu Hs].
    apply elem_of_values in Hs. by destruct (Hnone s Hs).
Qed.

(** ** Look before you get *)

(** X1.  [has_session] and [get_session] agree: [has_session] answers
    true exactly when [get_session] returns a session, and false exactly
    when [get_session] raises [SessionNotFound]. *)
Theorem has_session_iff_get_session (self : t) (id : NodeID) :
  (has_session id self = (self, inr true)
   <-> exists session, get_session id self = (self, inr session))
  /\ (has_session id self = (self, inr false)
      <-> get_session id self = (self, inl (SessionNotFound id))).
Proof.
  unfold has_session, get_session, contains, getitem, gets, raise.
  unfold mbind, Eff_bind. cbn.
  destruct (_sessions self !! id) as [session|] eqn:Hs.
  - rewrite bool_decide_eq_true_2 by done. cbn. rewrite Hs. split.
    + split; [by exists session|done].
    + split; intros [=].
  - rewrite bool_decide_eq_false_2 by (by intros [? ?]). cbn. split.
    + split; [intros [=]|intros [s [=]]].
    + done.
Qed.

(** ** Registering and removing *)

(** X2.  In a keyed pool without a session for node [n] and without a
    session of UUID [fresh_id], registering a session for [n] and then
    removing it by its UUID gives back the pool as it was;
    [remove_session] returns true. *)
Theorem create_then_remove (self : t) (n : Node) (is_initiator : bool)
    (fresh_id : UUID) (now : Time) :
  keyed self ->
  _sessions self !! node_id n = None ->
  (forall session, stored self session -> session_id session <> fresh_id) ->
  exists (self' : t) (session : Session),
    create_session n is_initiator fresh_id now self = (self', inr session)
    /\ remove_session (session_id session) self' = (self, inr true).
Proof.
  intros Hk Hnone Hfresh.
  set (session := if is_initiator then SessionInitiator n fresh_id now
                  else SessionRecipient n fresh_id now).
  assert (Hn : remote_node_id session = node_id n) by (by destruct is_initiator).
  assert (Hu : session_id session = fresh_id) by (by destruct is_initiator).
  exists (set_sessions (insert (node_id n) session) self), session. split.
  - unfold create_session, contains, setitem, modify, gets, raise.
    unfold mbind, mret, Eff_bind, Eff_ret. cbn.
    rewrite bool_decide_eq_false_2 by (rewrite Hnone; by intros [? ?]).
    reflexivity.
  - rewrite remove_session_filter
      by (rewrite <- Hn; by apply keyed_insert).
    f_equal.
    + destruct self as [pk m]. unfold set_sessions. cbn in *. f_equal.
      rewrite map_filter_insert_False by (cbn; intros Hne; by apply Hne).
      rewrite delete_id by done.
      apply map_filter_id. intros i x Hx. cbn. rewrite Hu.
      apply Hfresh. by exists i.
    + f_equal. apply bool_decide_eq_true. intros Hnil.
      apply (proj1 (to_remove_nil _ _) Hnil session); [|done].
      exists (node_id n). cbn. by rewrite lookup_insert_eq.
Qed.

Lemma create_then_remove_witness :
  exists (self' : t) (session : Session),
    create_session node9 false 78 130 pool5 = (self', inr session)
    /\ remove_session (session_id session) self' = (pool5, inr true).
Proof.
  apply (create_then_remove pool5 node9 false 78 130).
  - exact keyed_pool5.
  - reflexivity.
  - intros session [k Hs]. unfold pool5, set_sessions, init in Hs. cbn in Hs.
    apply lookup_insert_Some in Hs as [[_ <-]|[_ Hs]]; [done|].
    by rewrite lookup_empty in Hs.
Defined.

(** X3.  [remove_session] is idempotent on a keyed pool: a second call
    with the same UUID finds nothing, returns false and leaves the pool
    as the first call left it. *)
Theorem remove_session_twice (self : t) (u : UUID) :
  keyed self ->
  exists (self' : t) (removed : bool),
    remove_session u self = (self', inr removed)
    /\ remove_session u self' = (self', inr false).
Proof.
  intros Hk. rewrite remove_session_filter by done.
  eexists _, _. split; [reflexivity|].
  rewrite remove_session_filter by (by apply keyed_filter).
  assert (Hnone : forall session,
    stored (set_sessions (filter (fun kv => session_id kv.2 <> u)) self) session ->
    session_id session <> u).
  { intros session [k Hs]. cbn in Hs.
    by apply map_lookup_filter_Some in Hs as [_ Hu]. }
  f_equal.
  - destruct self as [pk m]. unfold set_sessions. cbn. f_equal.
    apply map_filter_id. intros i x Hx.
    by apply map_lookup_filter_Some in Hx as [_ Hu].
  - f_equal. apply bool_decide_eq_false. intros Hne. apply Hne.
    by apply to_remove_nil.
Qed.

Lemma remove_session_twice_witness :
  exists (self' : t) (removed : bool),
    remove_session 77 pool59 = (self', inr removed)
    /\ remove_session 77 self' = (self', inr false).
Proof. apply (remove_session_twice pool59 77 keyed_pool59). Defined.

(** X4.  Removing the session of a node by its UUID frees the node: in a
    keyed pool that holds [session] for node [n], after
    [remove_session(session.session_id)] the pool has no session for
    [n], and a following [create_session] for [n] succeeds and is what
    [get_session] then returns. *)
Theorem remove_then_create (self : t) (n : Node) (session : Session)
    (is_initiator : bool) (fresh_id : UUID) (now : Time) :
  keyed self ->
  _sessions self !! node_id n = Some session ->
  exists (self' self'' : t) (session' : Session),
    remove_session (session_id session) self = (self', inr true)
    /\ has_session (node_id n) self' = (self', inr false)
    /\ create_session n is_initiator fresh_id now self' = (self'', inr session')
    /\ get_session (node_id n) self'' = (self'', inr session').
Proof.
  intros Hk Hs. rewrite remove_session_filter by done.
  set (self' := set_sessions _ self).
  assert (Hgone : _sessions self' !! node_id n = None).
  { cbn. apply map_lookup_filter_None. right. intros x Hx. cbn.
    rewrite Hs in Hx. injection Hx as <-. by intros Hne. }
  set (session' := if is_initiator then SessionInitiator n fresh_id now
                   else SessionRecipient n fresh_id now).
  exists self', (set_sessions (insert (node_id n) session') self'), session'.
  split.
  { f_equal. f_equal. apply bool_decide_eq_true. intros Hnil.
    apply (proj1 (to_remove_nil _ _) Hnil session); [by exists (node_id n)|done]. }
  unfold has_session, create_session, get_session, contains, getitem, setitem,
    modify, gets, raise.
  unfold mbind, mret, Eff_bind, Eff_ret. cbn [fst snd].
  rewrite Hgone.
  rewrite bool_decide_eq_false_2 by (by intros [? ?]).
  split; [done|]. split; [done|].
  cbn. rewrite lookup_insert_eq.
  rewrite bool_decide_eq_true_2 by done. cbn. by rewrite lookup_insert_eq.
Qed.

Lemma remove_then_create_witness :
  exists (self' self'' : t) (session' : Session),
    remove_session (session_id session5) pool59 = (self', inr true)
    /\ has_session 5%N self' = (self', inr false)
    /\ create_session node5 false 79 140 self' = (self'', inr session')
    /\ get_session 5%N self'' = (self'', inr session').
Proof.
  apply (remove_then_create pool59 node5 session5 false 79 140).
  - exact keyed_pool59.
  - reflexivity.
Defined.

(** X16.  In a keyed pool whose sessions carry pairwise distinct UUIDs,
    [remove_session] removes at most one session: the pool shrinks by
    one entry when the call returns true and keeps its size when it
    returns false. *)
Theorem remove_session_at_most_one (self : t) (u : UUID) :
  keyed self ->
  distinct_ids self ->
  exists (self' : t) (removed : bool),
    remove_session u self = (self', inr removed)
    /\ size (_sessions self)
       = (size (_sessions self') + (if removed then 1 else 0))%nat.
Proof.
  intros Hk Hd. rewrite remove_session_filter by done.
  eexists _, _. split; [reflexivity|]. cbn [_sessions set_sessions].
  destruct (filter (fun session => session_id session = u)
              (map_to_list (_sessions self)).*2) as [|s l] eqn:Hf.
  - rewrite bool_decide_eq_false_2 by (by intros Hne).
    pose proof (proj1 (to_remove_nil self u) Hf) as Hnone.
    rewrite map_filter_id; [lia|].
    intros i x Hx. cbn. apply Hnone. by exists i.
  - rewrite bool_decide_eq_true_2 by done.
    assert (Hs : s ∈ s :: l) by left. rewrite <- Hf in Hs.
    apply list_elem_of_filter in Hs as [Hu Hs].
    apply elem_of_values in Hs.
    pose proof (keyed_stored_lookup self s Hk Hs) as Hl.
    assert (Heq : filter (fun kv => session_id kv.2 <> u) (_sessions self)
                  = delete (remote_node_id s) (_sessions self)).
    { apply map_eq. intros i. apply option_eq. intros x.
      rewrite map_lookup_filter_Some, lookup_delete_Some. cbn. split.
      - intros [Hx Hne]. split; [|done]. intros <-.
        rewrite Hl in Hx. injection Hx as <-. done.
      - intros [Hne Hx]. split; [done|]. intros Hxu. apply Hne.
        apply (Hd _ _ s x); [done|done|congruence]. }
    rewrite Heq, map_size_delete_Some by done.
    assert (size (_sessions self) <> 0)%nat; [|lia].
    intros Hz. apply map_size_empty_iff in Hz. rewrite Hz in Hl.
    by rewrite lookup_empty in Hl.
Qed.

Lemma distinct_ids_pool59 : distinct_ids pool59.
Proof.
  intros k1 k2 s1 s2 H1 H2. unfold pool59, pool5, set_sessions, init in *.
  cbn in H1, H2.
  apply lookup_insert_Some in H1 as [[<- <-]|[_ H1]];
    apply lookup_insert_Some in H2 as [[<- <-]|[_ H2]]; try done.
  - apply lookup_insert_Some in H2 as [[<- <-]|[_ H2]]; [done|].
    by rewrite lookup_empty in H2.
  - apply lookup_insert_Some in H1 as [[<- <-]|[_ H1]]; [done|].
    by rewrite lookup_empty in H1.
  - apply lookup_insert_Some in H1 as [[<- <-]|[_ H1]];
      [|by rewrite lookup_empty in H1].
    apply lookup_insert_Some in H2 as [[<- <-]|[_ H2]];
      [done|by rewrite lookup_empty in H2].
Defined.

Lemma remove_session_at_most_one_witness :
  exists (self' : t) (removed : bool),
    remove_session 77 pool59 = (self', inr removed)
    /\ size (_sessions pool59)
       = (size (_sessions self') + (if removed then 1 else 0))%nat.
Proof.
  apply (remove_session_at_most_one pool59 77 keyed_pool59 distinct_ids_pool59).
Defined.

(** ** Exceptions *)

(** Outside keyed pools the dictionary's own [KeyError] can escape from
    [remove_session], with part of the work done. *)
Example misfiled_key_error :
  remove_session 77 misfiled
  = (mk 1 (delete 5%N (_sessions misfiled)), inl (KeyError 5%N)).
Proof. vm_compute. reflexivity. Qed.

(** X5.  On a keyed pool a call raises only what its method declares:
    [create_session] raises [DuplicateSession] for a node that has a
    session, [get_session] raises [SessionNotFound] for a node that has
    none, and nothing else is ever raised, in particular no [KeyError]
    of the dictionary.  A call that raises leaves the pool as it was. *)
Theorem call_raises_only (SESSION_IDLE_TIMEOUT : Time) (c : Call) (self : t)
    (e : Error) :
  keyed self ->
  call_raised SESSION_IDLE_TIMEOUT c self = Some e ->
  call SESSION_IDLE_TIMEOUT c self = self
  /\ ((exists n is_initiator fresh_id now,
         c = CreateSession n is_initiator fresh_id now
         /\ e = DuplicateSession (node_id n)
         /\ is_Some (_sessions self !! node_id n))
      \/ (exists id,
            c = GetSession id
            /\ e = SessionNotFound id
            /\ _sessions self !! id = None)).
Proof.
  intros Hk. destruct c as [n b u now|u|id|id|now]; cbn [call_raised call].
  - unfold raised, create_session, contains, setitem, modify, gets, raise.
    unfold mbind, mret, Eff_bind, Eff_ret. cbn.
    case_bool_decide as Hs; cbn; [|done].
    intros [= <-]. split; [done|]. left. by exists n, b, u, now.
  - rewrite remove_session_filter by done. done.
  - unfold raised, get_session, contains, getitem, gets, raise.
    unfold mbind, Eff_bind. cbn.
    destruct (_sessions self !! id) as [session|] eqn:Hs.
    + rewrite bool_decide_eq_true_2 by done. cbn. by rewrite Hs.
    + rewrite bool_decide_eq_false_2 by (by intros [? ?]). cbn.
      intros [= <-]. split; [done|]. right. by exists id.
  - done.
  - done.
Qed.

Lemma call_raises_only_witness :
  call 60 (CreateSession node5 false 79 140) pool59 = pool59
  /\ ((exists n is_initiator fresh_id now,
         CreateSession node5 false 79 140 = CreateSession n is_initiator fresh_id now
         /\ DuplicateSession 5%N = DuplicateSession (node_id n)
         /\ is_Some (_sessions pool59 !! node_id n))
      \/ (exists id,
            CreateSession node5 false 79 140 = GetSession id
            /\ DuplicateSession 5%N = SessionNotFound id
            /\ _sessions pool59 !! id = None)).
Proof.
  apply (call_raises_only 60 (CreateSession node5 false 79 140) pool59
           (DuplicateSession 5%N)).
  - exact keyed_pool59.
  - reflexivity.
Defined.

(** ** Idle sessions *)

(** X6.  Idleness only grows with time: a session that
    [get_idle_sesssions] returns at one clock reading is returned at
    every later reading, for the same pool. *)
Theorem idle_stays_idle (SESSION_IDLE_TIMEOUT now now' : Time) (self : t) :
  now <= now' ->
  exists idle idle' : list Session,
    get_idle_sesssions SESSION_IDLE_TIMEOUT now self = (self, inr idle)
    /\ get_idle_sesssions SESSION_IDLE_TIMEOUT now' self = (self, inr idle')
    /\ forall session, session ∈ idle -> session ∈ idle'.
Proof.
  intros Hle. eexists _, _. split; [reflexivity|]. split; [reflexivity|].
  intros session. rewrite !list_elem_of_filter.
  intros [Hidle Hs]. split; [lia|done].
Qed.

Lemma idle_stays_idle_witness :
  exists idle idle' : list Session,
    get_idle_sesssions 60 160 pool59 = (pool59, inr idle)
    /\ get_idle_sesssions 60 200 pool59 = (pool59, inr idle')
    /\ forall session, session ∈ idle -> session ∈ idle'.
Proof. apply (idle_stays_idle 60 160 200 pool59). lia. Defined.

(** X7.  In a keyed pool [get_idle_sesssions] lists no session twice,
    and every session it lists is the one that [get_session] returns
    for the session's remote node id. *)
Theorem idle_sessions_distinct (SESSION_IDLE_TIMEOUT now : Time) (self : t) :
  keyed self ->
  exists idle : list Session,
    get_idle_sesssions SESSION_IDLE_TIMEOUT now self = (self, inr idle)
    /\ NoDup idle
    /\ forall session, session ∈ idle ->
         get_session (remote_node_id session) self = (self, inr session).
Proof.
  intros Hk. eexists. split; [reflexivity|]. split.
  - apply NoDup_filter. apply (NoDup_fmap_1 remote_node_id).
    rewrite keyed_values_keys by done. apply NoDup_fst_map_to_list.
  - intros session Hs. apply list_elem_of_filter in Hs as [_ Hs].
    apply elem_of_values in Hs.
    pose proof (keyed_stored_lookup self session Hk Hs) as Hl.
    unfold get_session, contains, getitem, gets, raise.
    unfold mbind, Eff_bind. cbn.
    rewrite bool_decide_eq_true_2 by (by rewrite Hl). cbn. by rewrite Hl.
Qed.

Lemma idle_sessions_distinct_witness :
  exists idle : list Session,
    get_idle_sesssions 60 200 pool59 = (pool59, inr idle)
    /\ NoDup idle
    /\ forall session, session ∈ idle ->
         get_session (remote_node_id session) pool59 = (pool59, inr session).
Proof. apply (idle_sessions_distinct 60 200 pool59 keyed_pool59). Defined.

(** ** Sweeping idle sessions *)

Lemma filter_none {A} (P : A -> Prop) `{!forall x, Decision (P x)} (l : list A) :
  (forall x, x ∈ l -> ~ P x) -> filter P l = [].
Proof.
  induction l as [|x l IH]; intros Hn; [done|].
  rewrite filter_cons_False by (apply Hn; left).
  apply IH. intros y Hy. apply Hn. by right.
Qed.

Lemma calls_remove_sessions (T : Time) (us : list UUID) : forall self : t,
  keyed self ->
  calls T (RemoveSession <$> us) self
  = set_sessions (filter (fun kv => session_id kv.2 ∉ us)) self.
Proof.
  induction us as [|u us IH]; intros self Hk.
  - cbn. destruct self as [pk m]. unfold set_sessions. cbn. f_equal.
    symmetry. apply map_filter_id. intros i x _. cbn. apply not_elem_of_nil.
  - rewrite fmap_cons.
    change (calls T (RemoveSession u :: (RemoveSession <$> us)) self)
      with (calls T (RemoveSession <$> us) (remove_session u self).1).
    rewrite remove_session_filter by done. cbn [fst].
    rewrite IH by (by apply keyed_filter).
    unfold set_sessions. cbn. f_equal.
    rewrite map_filter_filter. apply map_filter_ext.
    intros i x _. cbn. rewrite not_elem_of_cons. tauto.
Qed.

(** X8.  Removing every session that [get_idle_sesssions] returned, by
    its UUID, leaves a keyed pool in which [get_idle_sesssions] finds
    nothing at the same clock reading, and which still holds every
    session whose UUID is not that of an idle one. *)
Theorem sweep_idle_sessions (SESSION_IDLE_TIMEOUT now : Time) (self : t) :
  keyed self ->
  exists (idle : list Session) (self' : t),
    get_idle_sesssions SESSION_IDLE_TIMEOUT now self = (self, inr idle)
    /\ self' = calls SESSION_IDLE_TIMEOUT
                 (RemoveSession <$> (session_id <$> idle)) self
    /\ get_idle_sesssions SESSION_IDLE_TIMEOUT now self' = (self', inr [])
    /\ forall k session,
         _sessions self !! k = Some session ->
         session_id session ∉ session_id <$> idle ->
         _sessions self' !! k = Some session.
Proof.
  intros Hk. eexists _, _. split; [reflexivity|]. split; [reflexivity|].
  rewrite calls_remove_sessions by done.
  set (idle := filter _ _).
  split.
  - unfold get_idle_sesssions, values, gets. unfold mbind, mret, Eff_bind, Eff_ret.
    cbn [fst snd]. f_equal. f_equal.
    apply filter_none. intros s Hs Hold.
    apply elem_of_values in Hs as [k Hs]. cbn in Hs.
    apply map_lookup_filter_Some in Hs as [Hs Hn]. cbn in Hn.
    destruct Hn. apply list_elem_of_fmap_2.
    apply list_elem_of_filter. split; [done|].
    apply elem_of_values. by exists k.
  - intros k session Hs Hn. cbn. by apply map_lookup_filter_Some.
Qed.

Lemma sweep_idle_sessions_witness :
  exists (idle : list Session) (self' : t),
    get_idle_sesssions 60 160 pool59 = (pool59, inr idle)
    /\ self' = calls 60 (RemoveSession <$> (session_id <$> idle)) pool59
    /\ get_idle_sesssions 60 160 self' = (self', inr [])
    /\ forall k session,
         _sessions pool59 !! k = Some session ->
         session_id session ∉ session_id <$> idle ->
         _sessions self' !! k = Some session.
Proof. apply (sweep_idle_sessions 60 160 pool59 keyed_pool59). Defined.

End PoolMore.

(** * More about the routing-table manager *)

Module ManagerMore.
Import RoutingTableManager Responder ManagerFacts.

Section More.

Context {RT : Type} `{RoutingTableAPI RT}.
Variable get_endpoint : NodeID -> Endpoint.
Variable local_node : Node.
Variable iterative_lookup : NodeID -> list Node.

Lemma actions_app (tr1 tr2 : list Event) :
  actions (tr1 ++ tr2) = actions tr1 ++ actions tr2.
Proof. apply filter_app. Qed.



Lemma start_verifications (found_nodes : list Node) : forall w : World RT,
  for_each found_nodes (fun node => emit (StartSoonVerifyNode node)) w
  = (mkWorld (routing_table w) (trace w ++ (StartSoonVerifyNode <$> found_nodes)),
     inr tt).
Proof.
  induction found_nodes as [|node l IH]; intros w.
  - cbn. unfold mret, Eff_ret. rewrite app_nil_r. by destruct w.
  - cbn [for_each]. unfold mbind, Eff_bind, emit at 1, modify.
    rewrite IH. cbn [routing_table trace]. by rewrite <- app_assoc.
Qed.

Lemma actions_verifications (found_nodes : list Node) :
  actions (StartSoonVerifyNode <$> found_nodes)
  = StartSoonVerifyNode <$> found_nodes.
Proof.
  induction found_nodes as [|node l IH]; [done|].
  rewrite fmap_cons. unfold actions in *. rewrite filter_cons_True by done.
  by rewrite IH.
Qed.

(** X10.  A cycle of the lookup daemon that finds the routing table
    non-empty runs one iterative lookup, for the target it drew, and then
    starts one [_verify_node] task for each node the lookup found, in the
    order found; the cycle itself does not touch the routing table. *)
Theorem lookup_cycle_on_members (target_node_id : NodeID) (w : World RT) :
  is_empty (routing_table w) = false ->
  exists w' : World RT,
    lookup_cycle iterative_lookup target_node_id w = (w', inr tt)
    /\ routing_table w' = routing_table w
    /\ actions (trace w')
       = actions (trace w)
         ++ NetworkIterativeLookup target_node_id
            :: (StartSoonVerifyNode <$> iterative_lookup target_node_id).
Proof.
  intros Hne. unfold lookup_cycle, logger, gets.
  unfold mbind, Eff_bind. cbn [routing_table trace]. rewrite Hne.
  unfold emit at 1 2, modify, mret, Eff_ret. cbn [routing_table trace].
  rewrite start_verifications. cbn [routing_table trace].
  eexists. split; [reflexivity|]. cbn [routing_table trace]. split; [done|].
  rewrite actions_app, actions_verifications, actions_snoc_log.
  rewrite actions_snoc by done. by rewrite <- app_assoc.
Qed.

End More.

Lemma lookup_cycle_on_members_witness :
  is_empty (routing_table sample_world) = false
  /\ exists w' : World KademliaRoutingTable.t,
       lookup_cycle (fun _ => [sample_local_node]) 11 sample_world = (w', inr tt)
       /\ routing_table w' = routing_table sample_world
       /\ actions (trace w')
          = actions (trace sample_world)
            ++ NetworkIterativeLookup 11
               :: (StartSoonVerifyNode <$> [sample_local_node]).
Proof.
  assert (Hne : is_empty (routing_table sample_world) = false) by reflexivity.
  split; [exact Hne|].
  exact (lookup_cycle_on_members (fun _ => [sample_local_node]) 11 sample_world Hne).
Defined.

End ManagerMore.

(** * The port cache *)

Module FactoriesFacts.
Import Factories.

Local Open Scope nat_scope.

(** With fuel for every turn it needs, the trimming loop drops the
    oldest entries beyond [PORT_CACHE_SIZE]. *)
Lemma popleft_excess_drop (fuel : nat) : forall cache : list Z,
  length cache - PORT_CACHE_SIZE <= fuel ->
  popleft_excess fuel cache = drop (length cache - PORT_CACHE_SIZE) cache.
Proof.
  induction fuel as [|fuel IH]; intros cache Hfuel; cbn [popleft_excess].
  - by replace (length cache - PORT_CACHE_SIZE) with 0 by lia.
  - case_decide as Hlen.
    + destruct cache as [|p cache]; [cbn in Hlen; lia|].
      cbn [tail]. cbn [length] in *. rewrite IH by lia.
      replace (S (length cache) - PORT_CACHE_SIZE)
        with (S (length cache - PORT_CACHE_SIZE)) by lia.
      done.
    + by replace (length cache - PORT_CACHE_SIZE) with 0 by lia.
Qed.

Lemma draw_uncached_Some (cache draws : list Z) (port : Z) (rest : list Z) :
  draw_uncached cache draws = Some (port, rest)
  <-> exists skipped,
        draws = skipped ++ port :: rest
        /\ Forall (fun p => p ∈ cache) skipped
        /\ port ∉ cache.
Proof.
  revert port rest. induction draws as [|p draws IH]; intros port rest; cbn.
  - split; [done|]. intros (skipped & Hd & _). by destruct skipped.
  - case_bool_decide as Hp.
    + rewrite IH. split.
      * intros (skipped & -> & Hs & Hn). exists (p :: skipped).
        split; [done|]. split; [by constructor|done].
      * intros (skipped & Hd & Hs & Hn). destruct skipped as [|q skipped].
        -- cbn in Hd. injection Hd as -> ->. done.
        -- cbn in Hd. injection Hd as -> ->. exists skipped.
           apply Forall_cons in Hs as [_ Hs]. done.
    + split.
      * intros [= -> ->]. exists []. by repeat split.
      * intros (skipped & Hd & Hs & Hn). destruct skipped as [|q skipped].
        -- cbn in Hd. by injection Hd as -> ->.
        -- cbn in Hd. injection Hd as -> ->.
           apply Forall_cons in Hs as [Hq _]. done.
Qed.

Lemma draw_uncached_None (cache draws : list Z) :
  draw_uncached cache draws = None <-> Forall (fun p => p ∈ cache) draws.
Proof.
  induction draws as [|p draws IH]; cbn.
  - split; [by constructor|done].
  - case_bool_decide as Hp.
    + rewrite IH. split; [by constructor|]. by intros [_ ?]%Forall_cons.
    + split; [done|]. by intros [? _]%Forall_cons.
Qed.

(** What a call that returns does to the cache. *)
Lemma get_open_port_Some (cache draws : list Z) (port : Z) (cache' rest : list Z) :
  get_open_port cache draws = Some (port, cache', rest)
  <-> draw_uncached cache draws = Some (port, rest)
      /\ cache' = drop (length (cache ++ [port]) - PORT_CACHE_SIZE) (cache ++ [port]).
Proof.
  unfold get_open_port.
  destruct (draw_uncached cache draws) as [[p r]|] eqn:Hd.
  - assert (Hp : p ∉ cache).
    { apply draw_uncached_Some in Hd as (_ & _ & _ & Hp). done. }
    rewrite bool_decide_eq_true_2 by done. cbv zeta.
    rewrite popleft_excess_drop by lia.
    split.
    + by intros [= -> <- ->].
    + by intros [[= -> ->] ->].
  - split; [done|]. by intros [? _].
Qed.

(** X11.  When the operating system hands out some port that is not in
    the cache, [get_open_port] returns: the port it returns is the first
    draw that is not cached, every draw it skipped is cached, and the
    port is appended to the cache as its newest entry. *)
Theorem get_open_port_returns_uncached (cache draws : list Z) :
  (exists p, p ∈ draws /\ p ∉ cache) ->
  exists (port : Z) (cache' skipped rest : list Z),
    get_open_port cache draws = Some (port, cache', rest)
    /\ draws = skipped ++ port :: rest
    /\ Forall (fun p => p ∈ cache) skipped
    /\ (port ∉ cache)
    /\ last cache' = Some port.
Proof.
  intros (p & Hin & Hnot).
  destruct (draw_uncached cache draws) as [[port rest]|] eqn:Hd.
  - pose proof (proj1 (draw_uncached_Some _ _ _ _) Hd) as (skipped & Hs & Hall & Hp).
    exists port, (drop (length (cache ++ [port]) - PORT_CACHE_SIZE) (cache ++ [port])),
      skipped, rest.
    split; [by apply get_open_port_Some|]. split; [done|]. split; [done|].
    split; [done|].
    rewrite drop_app_le by (rewrite length_app; cbn; unfold PORT_CACHE_SIZE; lia).
    apply last_snoc.
  - apply draw_uncached_None in Hd. rewrite Forall_forall in Hd.
    by destruct (Hnot (Hd p Hin)).
Qed.

Lemma get_open_port_returns_uncached_witness :
  exists (port : Z) (cache' skipped rest : list Z),
    get_open_port [5000; 5001]%Z [5001; 5000; 5002; 5003]%Z
    = Some (port, cache', rest)
    /\ [5001; 5000; 5002; 5003]%Z = skipped ++ port :: rest
    /\ Forall (fun p => p ∈ [5000; 5001]%Z) skipped
    /\ (port ∉ [5000; 5001]%Z)
    /\ last cache' = Some port.
Proof.
  apply (get_open_port_returns_uncached [5000; 5001]%Z [5001; 5000; 5002; 5003]%Z).
  exists 5002%Z. split.
  - right. right. left.
  - intros Hin. apply elem_of_cons in Hin as [Hin|Hin]; [done|].
    apply elem_of_cons in Hin as [Hin|Hin]; [done|].
    by apply not_elem_of_nil in Hin.
Defined.

(** X12.  [get_open_port] does not return as long as every port that
    the operating system hands out is in the cache: the draws run out
    with the loop still turning exactly when all of them are cached. *)
Theorem get_open_port_spins (cache draws : list Z) :
  get_open_port cache draws = None <-> Forall (fun p => p ∈ cache) draws.
Proof.
  rewrite <- draw_uncached_None. unfold get_open_port.
  destruct (draw_uncached cache draws) as [[p r]|]; [|done].
  by case_bool_decide.
Qed.

(** X13.  After a call of [get_open_port] that returns, the cache holds
    at most [PORT_CACHE_SIZE] ports, however many it held before: it is
    the old cache with the port appended, less its oldest entries beyond
    that size.  A cache without duplicates stays without duplicates. *)
Theorem port_cache_bounded (cache draws : list Z) (port : Z) (cache' rest : list Z) :
  get_open_port cache draws = Some (port, cache', rest) ->
  length cache' <= PORT_CACHE_SIZE
  /\ cache' = drop (length cache + 1 - PORT_CACHE_SIZE) (cache ++ [port])
  /\ (NoDup cache -> NoDup cache').
Proof.
  intros [Hd ->]%get_open_port_Some.
  apply draw_uncached_Some in Hd as (_ & _ & _ & Hp).
  rewrite length_app. cbn [length].
  split; [rewrite length_drop, length_app; cbn; lia|]. split; [done|].
  intros Hnd. eapply sublist_NoDup; [|apply sublist_drop].
  apply NoDup_app. split; [done|]. split; [|apply NoDup_singleton].
  intros x Hx Hx'. apply list_elem_of_singleton in Hx'. by subst.
Qed.

Lemma port_cache_bounded_witness :
  length [5000; 5001; 5002]%Z <= PORT_CACHE_SIZE
  /\ [5000; 5001; 5002]%Z
     = drop (length [5000; 5001]%Z + 1 - PORT_CACHE_SIZE) ([5000; 5001] ++ [5002])%Z
  /\ (NoDup [5000; 5001]%Z -> NoDup [5000; 5001; 5002]%Z).
Proof.
  apply (port_cache_bounded [5000; 5001]%Z [5001; 5000; 5002; 5003]%Z 5002%Z
           [5000; 5001; 5002]%Z [5003]%Z).
  reflexivity.
Defined.

(** ** Calls in a row *)

Lemma get_open_ports_cache (k : nat) :
  forall (cache draws ports cache' rest : list Z),
  length cache <= PORT_CACHE_SIZE ->
  NoDup cache ->
  get_open_ports k cache draws = Some (ports, cache', rest) ->
  length ports = k
  /\ NoDup cache'
  /\ cache' = drop (length (cache ++ ports) - PORT_CACHE_SIZE) (cache ++ ports).
Proof.
  induction k as [|k IH]; intros cache draws ports cache' rest Hlen Hnd; cbn.
  - intros [= <- <- <-]. split; [done|]. split; [done|].
    rewrite app_nil_r.
    by replace (length cache - PORT_CACHE_SIZE) with 0 by lia.
  - destruct (get_open_port cache draws) as [[[port cache1] rest1]|] eqn:Hone;
      [|done].
    destruct (get_open_ports k cache1 rest1) as [[[ports1 cache2] rest2]|] eqn:Hrun;
      [|done].
    intros [= <- <- <-].
    apply get_open_port_Some in Hone as [Hd Hc1].
    apply draw_uncached_Some in Hd as (_ & _ & _ & Hp).
    assert (Hnd1 : NoDup (cache ++ [port])).
    { apply NoDup_app. split; [done|]. split; [|apply NoDup_singleton].
      intros x Hx Hx'. apply list_elem_of_singleton in Hx'. by subst. }
    assert (Hlen1 : length cache1 <= PORT_CACHE_SIZE).
    { rewrite Hc1, length_drop. lia. }
    assert (Hndc1 : NoDup cache1).
    { rewrite Hc1. eapply sublist_NoDup; [exact Hnd1|apply sublist_drop]. }
    destruct (IH cache1 rest1 ports1 cache2 rest2 Hlen1 Hndc1 Hrun)
      as (Hk & Hnd2 & Hc2).
    split; [cbn; by rewrite Hk|]. split; [done|].
    rewrite Hc2, Hc1.
    set (n1 := length (cache ++ [port]) - PORT_CACHE_SIZE).
    assert (Hn1 : n1 <= length (cache ++ [port])) by (unfold n1; lia).
    rewrite <- (drop_app_le _ ports1) by done.
    rewrite drop_drop, length_app, length_drop.
    replace (cache ++ port :: ports1) with ((cache ++ [port]) ++ ports1)
      by (by rewrite <- app_assoc).
    f_equal. rewrite !length_app in *. cbn [length] in *.
    unfold n1, PORT_CACHE_SIZE in *. rewrite length_app. cbn [length]. lia.
Qed.

(** X14.  Starting from a cache without duplicates that holds at most
    [PORT_CACHE_SIZE] ports, the ports that up to [PORT_CACHE_SIZE]
    calls of [get_open_port] in a row return are pairwise distinct, and
    all of them are in the cache afterwards. *)
Theorem get_open_ports_distinct (k : nat) (cache draws ports cache' rest : list Z) :
  k <= PORT_CACHE_SIZE ->
  length cache <= PORT_CACHE_SIZE ->
  NoDup cache ->
  get_open_ports k cache draws = Some (ports, cache', rest) ->
  length ports = k
  /\ NoDup ports
  /\ forall port, port ∈ ports -> port ∈ cache'.
Proof.
  intros Hk Hlen Hnd Hrun.
  destruct (get_open_ports_cache k cache draws ports cache' rest Hlen Hnd Hrun)
    as (Hlp & Hnd' & Hc).
  split; [done|].
  assert (Hsuffix : exists older, cache' = older ++ ports).
  { exists (drop (length (cache ++ ports) - PORT_CACHE_SIZE) cache).
    rewrite Hc. apply drop_app_le. rewrite length_app. lia. }
  destruct Hsuffix as (older & Hs). split.
  - rewrite Hs in Hnd'. by apply NoDup_app in Hnd' as (_ & _ & ?).
  - intros port Hin. rewrite Hs. apply elem_of_app. by right.
Qed.

Lemma get_open_ports_distinct_witness :
  length [5002; 5003]%Z = 2
  /\ NoDup [5002; 5003]%Z
  /\ forall port, port ∈ [5002; 5003]%Z -> port ∈ [5000; 5001; 5002; 5003]%Z.
Proof.
  apply (get_open_ports_distinct 2 [5000; 5001]%Z [5001; 5000; 5002; 5002; 5003]%Z
           [5002; 5003]%Z [5000; 5001; 5002; 5003]%Z []).
  - unfold PORT_CACHE_SIZE. lia.
  - unfold PORT_CACHE_SIZE. cbn. lia.
  - apply NoDup_cons. split.
    + intros Hin. apply list_elem_of_singleton in Hin. done.
    + apply NoDup_singleton.
  - reflexivity.
Defined.

End FactoriesFacts.

(** * The status report *)

Module StatusReportFacts.
Import StatusReport.

Lemma pretty_N_char_numeral (x : N) : numeral_char (pretty_N_char x) = true.
Proof. unfold pretty_N_char. by repeat case_match. Qed.

Lemma pretty_N_go_numeral (x : N) : forall s : string,
  numeral s -> numeral (pretty_N_go x s).
Proof.
  induction (N.lt_wf_0 x) as [x _ IH]; intros s Hs.
  destruct (decide (x = 0)%N) as [->|Hx].
  - by rewrite pretty_N_go_0.
  - rewrite pretty_N_go_step by lia. apply IH.
    + apply N.div_lt; lia.
    + destruct Hs as [_ Hs]. split; [done|]. cbn.
      by rewrite pretty_N_char_numeral, Hs.
Qed.

Lemma pretty_N_numeral (x : N) : numeral (pretty x).
Proof.
  unfold pretty, pretty_N. case_decide as Hx; [done|].
  rewrite pretty_N_go_step by lia. apply pretty_N_go_numeral.
  split; [done|]. cbn. by rewrite pretty_N_char_numeral.
Qed.

Lemma pretty_Z_numeral (x : Z) : numeral (pretty x).
Proof.
  destruct x as [|p|p]; [done|apply pretty_N_numeral|].
  destruct (pretty_N_numeral (Npos p)) as [_ Hp].
  split; [done|]. unfold pretty, pretty_Z. cbn. exact Hp.
Qed.

(** A numeral holds no slash, so the first slash of a joined text ends
    its first part. *)
Lemma numeral_slash_split (a : string) : forall b x y : string,
  numeral_chars a = true -> numeral_chars b = true ->
  a +:+ String "/" x = b +:+ String "/" y -> a = b /\ x = y.
Proof.
  induction a as [|c a IH]; intros [|d b] x y Ha Hb; cbn.
  - by intros [= ->].
  - intros [= <- _]. cbn in Hb. done.
  - intros [= -> _]. cbn in Ha. done.
  - intros [= -> Heq]. cbn in Ha, Hb.
    apply andb_prop in Ha as [_ Ha]. apply andb_prop in Hb as [_ Hb].
    destruct (IH b x y Ha Hb Heq) as [-> ->]. done.
Qed.

Lemma numeral_no_slash (a : string) : forall b x : string,
  numeral_chars b = true -> a +:+ String "/" x <> b.
Proof.
  induction a as [|c a IH]; intros [|d b] x Hb; cbn; try done.
  - intros [= <- _]. cbn in Hb. done.
  - intros [= _ Heq]. cbn in Hb. apply andb_prop in Hb as [_ Hb].
    by apply (IH b x).
Qed.

Lemma join_inj (l1 : list string) : forall l2 : list string,
  Forall numeral l1 -> Forall numeral l2 ->
  String.concat "/" l1 = String.concat "/" l2 -> l1 = l2.
Proof.
  induction l1 as [|a [|a' l1] IH]; intros [|b [|b' l2]] H1 H2; cbn [String.concat];
    try done.
  - intros Heq. apply Forall_cons in H2 as [[Hb _] _]. by destruct Hb.
  - intros Heq. apply Forall_cons in H2 as [[Hb _] _].
    destruct b; [done|]. discriminate.
  - intros Heq. apply Forall_cons in H1 as [[Ha _] _]. by destruct Ha.
  - by intros ->.
  - intros Heq. apply Forall_cons in H1 as [[_ Ha] _].
    symmetry in Heq. by apply numeral_no_slash in Heq.
  - intros Heq. apply Forall_cons in H1 as [[Ha _] _].
    destruct a; [done|]. discriminate.
  - intros Heq. apply Forall_cons in H2 as [[_ Hb] _].
    by apply numeral_no_slash in Heq.
  - intros Heq.
    apply Forall_cons in H1 as [[_ Ha] H1].
    apply Forall_cons in H2 as [[_ Hb] H2].
    apply numeral_slash_split in Heq as [-> Heq]; [|done..].
    f_equal. by apply IH.
Qed.

Lemma join_head (a : string) (l : list string) :
  numeral a ->
  exists (c : ascii) (t : string),
    String.concat "/" (a :: l) = String c t /\ numeral_char c = true.
Proof.
  intros [Hne Ha]. destruct a as [|c a]; [done|].
  cbn in Ha. apply andb_prop in Ha as [Hc _].
  destruct l as [|b l]; cbn; eauto.
Qed.

Lemma join_not_None (l : list Z) :
  l <> [] -> String.concat "/" (pretty <$> l) <> "None".
Proof.
  destruct l as [|x l]; [done|]. intros _ Heq. rewrite fmap_cons in Heq.
  destruct (join_head (pretty x) (pretty <$> l) (pretty_Z_numeral x))
    as (c & t & Hc & Hn).
  rewrite Hc in Heq. injection Heq as -> _. done.
Qed.

Lemma Forall_numeral_pretty (l : list Z) : Forall numeral (pretty <$> l).
Proof. apply Forall_fmap, Forall_forall. intros x _. apply pretty_Z_numeral. Qed.

(** X15.  In the status report the field for the full buckets reads
    [None] exactly when no bucket is full, and otherwise lists the
    indexes of the full buckets so that they can be read back: two
    statistics with the same text have the same full buckets. *)
Theorem report_full_buckets (stats1 stats2 : RoutingTableStats) :
  (arg_full_buckets (report stats1) = "None" <-> full_buckets stats1 = [])
  /\ (arg_full_buckets (report stats1) = arg_full_buckets (report stats2) ->
      full_buckets stats1 = full_buckets stats2).
Proof.
  assert (Htext : forall stats x l, full_buckets stats = x :: l ->
    arg_full_buckets (report stats) = String.concat "/" (pretty <$> x :: l)).
  { intros stats x l Hf. unfold report. by rewrite Hf. }
  split.
  - split.
    + destruct (full_buckets stats1) as [|x l] eqn:Hf; [done|].
      rewrite (Htext _ _ _ Hf). intros Heq. by apply join_not_None in Heq.
    + intros Hf. unfold report. by rewrite Hf.
  - destruct (full_buckets stats1) as [|x1 l1] eqn:Hf1;
      destruct (full_buckets stats2) as [|x2 l2] eqn:Hf2.
    + done.
    + rewrite (Htext _ _ _ Hf2). unfold report at 1. rewrite Hf1. cbn [arg_full_buckets].
      intros Heq. symmetry in Heq. by apply join_not_None in Heq.
    + rewrite (Htext _ _ _ Hf1). unfold report at 1. rewrite Hf2. cbn [arg_full_buckets].
      intros Heq. by apply join_not_None in Heq.
    + rewrite (Htext _ _ _ Hf1), (Htext _ _ _ Hf2). intros Heq.
      apply join_inj in Heq; [|apply Forall_numeral_pretty..].
      by apply (inj (fmap pretty)) in Heq.
Qed.

Example report_sample :
  report (mkStats 16 256 40 [3; 255; 256] 7)
  = mkArgs 16 256 40 "3/255/256" 7.
Proof. reflexivity. Qed.

Lemma report_full_buckets_witness :
  (arg_full_buckets (report (mkStats 16 256 0 [] 0)) = "None"
   <-> full_buckets (mkStats 16 256 0 [] 0) = [])
  /\ (arg_full_buckets (report (mkStats 16 256 0 [] 0))
      = arg_full_buckets (report (mkStats 16 256 3 [] 1)) ->
      full_buckets (mkStats 16 256 0 [] 0) = full_buckets (mkStats 16 256 3 [] 1)).
Proof.
  apply (report_full_buckets (mkStats 16 256 0 [] 0) (mkStats 16 256 3 [] 1)).
Defined.

End StatusReportFacts.
